(** * text_recognizer: the generation loop, the metrics, the datasets and
    the experiment scripts

    A shallow embedding of
      - [Reader.predict]  (text_recognizer/networks/cnn_tranformer.py),
      - [accuracy_ignore_pad], [accuracy], [cer], [wer]
        (text_recognizer/models/metrics.py),
      - [BaseDataset], [convert_strings_to_labels]
        (text_recognizer/data/base_dataset.py),
      - [_import_class], [_save_best_weights], [run]
        (training/run_experiment.py) and [run_experiments]
        (training/prepare_experiments.py),
    together with the statements that the design document makes about them
    and further properties read off the code.

    Tensors are nested lists; a Python exception is a value of [pyerror]
    threaded through the [result] monad; tensors and mappings that are
    changed in place live in a store indexed by references; calls into
    libraries are parameters. *)

From Stdlib Require Import ZArith QArith List String Ascii Lia Bool.
From stdpp Require Import base list gmap strings.

(* ===================================================================== *)
(** ** Python exceptions                                                  *)
(* ===================================================================== *)

Inductive pyerror : Type :=
  | RuntimeError        (* raised by torch: shapes, [bool()] of a tensor *)
  | IndexError          (* index out of range *)
  | KeyError            (* a dictionary without the key *)
  | ZeroDivisionError   (* Python [/] with a zero divisor *)
  | ValueError          (* invalid input, e.g. [chr] out of range *)
  | TypeError           (* an operand of a type the operation refuses *)
  | OverflowError.      (* an int outside the range of the type it is stored in *)

Inductive result (A : Type) : Type :=
  | Ok (a : A)
  | Raise (e : pyerror).
Arguments Ok {A} a.
Arguments Raise {A} e.

Definition rbind {A B : Type} (m : result A) (k : A -> result B) : result B :=
  match m with
  | Ok a => k a
  | Raise e => Raise e
  end.

#[export] Instance result_ret : MRet result := fun A a => Ok a.
#[export] Instance result_bind : MBind result := fun A B k m => rbind m k.

Definition raises {A : Type} (m : result A) : Prop := exists e, m = Raise e.

(* ===================================================================== *)
(** ** The tensor operations used by the sources                          *)
(* ===================================================================== *)

Module Torch.

(** A two-dimensional integer tensor, row by row. A tensor with no rows
    does not record its number of columns, so the functions that need it
    take it from the caller. *)
Definition matrix : Type := list (list Z).

(** [torch.ones((bsz, len), dtype=torch.long)]. *)
Definition ones (bsz len : nat) : matrix := repeat (repeat 1%Z len) bsz.

(** [t[:, j]] for [j] below the number of columns. *)
Definition column (j : nat) (t : matrix) : list Z :=
  map (fun row => nth j row 0%Z) t.

(** [t[:, j] = v] for an integer [v]: IndexError when the tensor has no
    column [j]. *)
Definition set_column_scalar (len j : nat) (v : Z) (t : matrix) : result matrix :=
  if (j <? len)%nat then Ok (map (fun row => <[j := v]> row) t)
  else Raise IndexError.

(** [t[:, j:j+1] = tokens] for [tokens] of shape (1, n): the slice has
    the shape (rows, 1) and takes [tokens] by broadcasting, which torch
    allows only when n is 1; every row then gets the one token. *)
Definition set_column (j : nat) (tokens : list Z) (t : matrix) : result matrix :=
  match tokens with
  | [tok] => Ok (map (fun row => <[j := tok]> row) t)
  | _ => Raise RuntimeError
  end.

(** [bool(t)] for a tensor with the elements [t] (in any shape): torch
    answers only for a tensor of exactly one element, and raises
    RuntimeError for an empty one and for one with several elements. *)
Definition tensor_bool (t : list bool) : result bool :=
  match t with
  | [b] => Ok b
  | _ => Raise RuntimeError
  end.

(** [a == b] for [a] of shape (n,) and [b] of shape (r, len), with
    broadcasting: the trailing sizes [n] and [len] have to agree, or one of
    them has to be 1; the result has [r] rows. *)
Definition eq_1d_2d (len : nat) (a : list Z) (b : matrix) : result (list (list bool)) :=
  if (length a =? len)%nat then
    Ok (map (fun row => zip_with Z.eqb a row) b)
  else if (length a =? 1)%nat then
    Ok (map (fun row => map (Z.eqb (nth 0 a 0%Z)) row) b)
  else if (len =? 1)%nat then
    Ok (map (fun row => map (fun x => Z.eqb x (nth 0 row 0%Z)) a) b)
  else Raise RuntimeError.

(** [t.all()]. *)
Definition all (t : list bool) : bool := forallb id t.

(** [t[idx, j] = v] for a boolean mask [idx] over the rows. *)
Definition masked_set (idx : list bool) (j : nat) (v : Z) (t : matrix) : matrix :=
  zip_with (fun (b : bool) row => if b then <[j := v]> row else row) idx t.

End Torch.

(* ===================================================================== *)
(** ** Reader.predict                                                     *)
(* ===================================================================== *)

Module Reader.

Record config : Type := Config {
  max_output_len : nat;
  start_index : Z;
  end_index : Z;
  pad_index : Z
}.

Section Predict.

(** The image batch and the networks are not part of the generation loop.
    [shape0 x] is [x.shape[0]]; [next_tokens x context] stands for
    [torch.argmax(self.decode(self.encode(x), context), dim=-1)[-1:]], the
    last row of the arg-max tokens, of shape (1, n): one token per batch
    element for logits of the shape (i, bsz, c) that the comment of line
    185 gives; or the exception that the networks raise. *)
Variable Image : Type.
Variable shape0 : Image -> nat.
Variable next_tokens : Image -> Torch.matrix -> result (list Z).

Variable self : config.

(** Lines 180-181:
      output = torch.ones((bsz, self.max_output_len), dtype=torch.long)
      output[:, 0] = self.start_index *)
Definition init_output (bsz : nat) : result Torch.matrix :=
  Torch.set_column_scalar (max_output_len self) 0 (start_index self)
    (Torch.ones bsz (max_output_len self)).

(** Lines 190-192, the condition of the [if]:
      (output[:, i - 1] == self.end_index | output[: i - 1] == self.pad_index).all()
    In Python [|] binds tighter than [==], and [a == b == c] is the chained
    comparison [(a == b) and (b == c)] with [b] evaluated once; [and] takes
    [bool(a == b)]. Here [a] is the column [i - 1], [b] is
    [self.end_index | output[: i - 1]] (bitwise or with the first [i - 1]
    ROWS of the buffer) and [c] is [self.pad_index]. *)
Definition early_stop_check (output : Torch.matrix) (i : nat) : result bool :=
  let a := Torch.column (i - 1) output in
  let b := map (map (Z.lor (end_index self))) (take (i - 1) output) in
  t1 ← Torch.eq_1d_2d (max_output_len self) a b;
  c ← Torch.tensor_bool (concat t1);
  let t := if (c : bool) then map (map (fun v => Z.eqb v (pad_index self))) b else t1 in
  Ok (Torch.all (concat t)).

(** Lines 183-193, the loop over [range(1, self.max_output_len)]. *)
Fixpoint generate (x : Image) (steps : list nat) (output : Torch.matrix)
  : result Torch.matrix :=
  match steps with
  | [] => Ok output
  | i :: rest =>
      let context := map (take i) output in
      tokens ← next_tokens x context;
      output' ← Torch.set_column i tokens output;
      stop ← early_stop_check output' i;
      if (stop : bool) then Ok output' else generate x rest output'
  end.

(** Lines 197-199:
      idx = (output[:, i - 1] == self.end_index | output[:, i - 1] == self.pad_index)
    again a chained comparison, between the column, the column or-ed with
    [self.end_index], and [self.pad_index]. *)
Definition mask_index (output : Torch.matrix) (i : nat) : result (list bool) :=
  let a := Torch.column (i - 1) output in
  let b := map (Z.lor (end_index self)) a in
  let t1 := zip_with Z.eqb a b in
  c ← Torch.tensor_bool t1;
  Ok (if (c : bool) then map (fun v => Z.eqb v (pad_index self)) b else t1).

(** Lines 196-200, the second loop. *)
Fixpoint post_pass (steps : list nat) (output : Torch.matrix) : result Torch.matrix :=
  match steps with
  | [] => Ok output
  | i :: rest =>
      idx ← mask_index output i;
      post_pass rest (Torch.masked_set idx i (pad_index self) output)
  end.

Definition predict (x : Image) : result Torch.matrix :=
  let bsz := shape0 x in
  output ← init_output bsz;
  output ← generate x (seq 1 (max_output_len self - 1)) output;
  post_pass (seq 1 (max_output_len self - 1)) output.

End Predict.


(** The configuration of the examples: three positions and the start
    index 80; the end index 81 and the pad index 79 are the defaults of
    [accuracy_ignore_pad]. *)
Definition demo : config := Config 3 80 81 79.

End Reader.

(* ===================================================================== *)
(** ** The metrics                                                        *)
(* ===================================================================== *)

Module Metrics.

(** A floating-point result. The quotient of two integers is kept as the
    exact rational; torch's division by zero gives [NaN] for 0/0 and [Inf]
    otherwise, without raising. *)
Inductive pyfloat : Type :=
  | Fin (q : Q)
  | Inf
  | NaN.

(** [c.float() / n] for a tensor [c] holding a count and a Python int [n]. *)
Definition tensor_div (c n : nat) : pyfloat :=
  match n with
  | O => if (c =? 0)%nat then NaN else Inf
  | S _ => Fin (Z.of_nat c # Pos.of_nat n)
  end.

(** [a / b] for two Python ints. *)
Definition int_div (a b : nat) : result Q :=
  match b with
  | O => Raise ZeroDivisionError
  | S _ => Ok (Z.of_nat a # Pos.of_nat b)
  end.

(** *** accuracy *)

(** The index of the first maximal entry, scanning from the left. *)
Fixpoint argmax_from (best_i : nat) (best : Q) (i : nat) (row : list Q) : nat :=
  match row with
  | [] => best_i
  | v :: row' =>
      if Qlt_le_dec best v
      then argmax_from i v (S i) row'
      else argmax_from best_i best (S i) row'
  end.

(** [torch.max(row, dim=-1)[1]]: torch refuses an empty dimension. *)
Definition argmax (row : list Q) : result Z :=
  match row with
  | [] => Raise IndexError
  | v :: row' => Ok (Z.of_nat (argmax_from 0 v 1 row'))
  end.

(** [a == b] for two one-dimensional tensors, with broadcasting. *)
Definition eq_1d (a b : list Z) : result (list bool) :=
  if (length a =? length b)%nat then Ok (zip_with Z.eqb a b)
  else if (length a =? 1)%nat then Ok (map (Z.eqb (nth 0 a 0%Z)) b)
  else if (length b =? 1)%nat then Ok (map (fun v => Z.eqb v (nth 0 b 0%Z)) a)
  else Raise RuntimeError.

(** [t.sum()] of a boolean tensor. *)
Definition count_true (t : list bool) : nat := length (filter (fun b => b = true) t).

(** Lines 37-41, for [outputs] of shape (N, C) and [labels] of shape (N,):
      _, predicted = torch.max(outputs, dim=-1)
      acc = (predicted == labels).sum().float() / labels.shape[0] *)
Definition accuracy (outputs : list (list Q)) (labels : list Z) : result pyfloat :=
  predicted ← mapM argmax outputs;
  matches ← eq_1d predicted labels;
  Ok (tensor_div (count_true matches) (length labels)).

(** The same lines for [outputs] of shape (B, S, C) and [labels] of shape
    (B, S), both with the same B: the comparison is row by row, the sum is
    over all positions and the divisor is still [labels.shape[0]]. *)
Definition accuracy_rank2 (outputs : list (list (list Q))) (labels : list (list Z))
  : result pyfloat :=
  predicted ← mapM (mapM argmax) outputs;
  if (length predicted =? length labels)%nat then
    matches ← mapM (fun pl => eq_1d pl.1 pl.2) (zip predicted labels);
    Ok (tensor_div (count_true (concat matches)) (length labels))
  else Raise RuntimeError.

(** The one-hot encoding of the label [l] over [classes] classes: the
    score 1 at the index [l] and 0 elsewhere. *)
Definition one_hot (classes : nat) (l : Z) : list Q :=
  map (fun k => if Z.eqb (Z.of_nat k) l then 1%Q else 0%Q) (seq 0 classes).

(** *** accuracy_ignore_pad *)

(** [torch.nonzero(target == eos_index, as_tuple=False).squeeze(1)]: the
    positions of [eos_index] in [target], increasing. *)
Fixpoint nonzero_eq_from (k : nat) (target : list Z) (eos_index : Z) : list nat :=
  match target with
  | [] => []
  | v :: target' =>
      if Z.eqb v eos_index
      then k :: nonzero_eq_from (S k) target' eos_index
      else nonzero_eq_from (S k) target' eos_index
  end.

Definition start_indices (target : list Z) (eos_index : Z) : list nat :=
  nonzero_eq_from 0 target eos_index.

(** [torch.arange(seq_len, n + 1, seq_len)]: the multiples of [seq_len]
    from [seq_len] up to [n]; torch refuses a step of zero. *)
Definition end_indices (seq_len n : nat) : result (list nat) :=
  match seq_len with
  | O => Raise RuntimeError
  | S _ => Ok (map (fun k => (S k * seq_len)%nat) (seq 0 (n / seq_len)))
  end.

(** [output[a : b] = v] on the rows of [output]. *)
Definition slice_fill (a b : nat) (v : Q) (output : list (list Q)) : list (list Q) :=
  imap (fun k row => if ((a <=? k) && (k <? b))%nat then map (fun _ => v) row else row)
       output.

(** The tensors that the metrics receive, by rank and element type. *)
Inductive tensor : Type :=
  | Long1 (v : list Z)
  | Long2 (m : list (list Z))
  | Float2 (m : list (list Q))
  | Float3 (t : list (list (list Q))).

Definition loc : Type := positive.
Abbreviation store := (gmap loc tensor).

(** One iteration of the loop of lines 19-20, on the tensor that [output]
    refers to:  output[start + 1 : stop] = pad_index *)
Definition mask_step (output : loc) (pad_index : Z) (σ : store) (p : nat * nat) : store :=
  match σ !! output with
  | Some (Float2 o) =>
      <[output := Float2 (slice_fill (S p.1) p.2 (inject_Z pad_index) o)]> σ
  | _ => σ
  end.

(** [torch.nonzero(target == eos_index, as_tuple=False).squeeze(1)] for a
    [target] of shape (B, S): one row (b, s) per end token; the rows have
    two entries, so [squeeze(1)] leaves them as they are. *)
Definition start_indices_rank2 (target : list (list Z)) (eos_index : Z)
  : list (nat * nat) :=
  concat (imap (fun b row => (fun s => (b, s)) <$> start_indices row eos_index) target).

(** Lines 17-22. The caller passes references; the function returns its
    value and the store it leaves behind.
    - [output] a (N, C) tensor of scores and [target] a (N,) tensor of
      labels, the layout the loop is written for: the loop writes into
      [output].
    - [output] of shape (B, S, C) and [target] of shape (B, S): [start] is
      a tensor of two entries, which the slice [start + 1 : stop] refuses
      as a bound (TypeError) before anything is written; when the loop has
      no iteration the call is [accuracy(output, target)].
    For the other combinations of ranks and element types the comparison
    [predicted == labels] of [accuracy] is between shapes that do not
    agree in general; they are answered with torch's refusal, and no
    statement below rests on them. *)
Definition accuracy_ignore_pad (output target : loc) (pad_index eos_index : Z)
    (seq_len : nat) (σ : store) : result pyfloat * store :=
  match σ !! target, σ !! output with
  | Some (Long1 t), Some (Float2 _) =>
      match end_indices seq_len (length t) with
      | Raise e => (Raise e, σ)
      | Ok stops =>
          let σ' := foldl (mask_step output pad_index) σ
                          (zip (start_indices t eos_index) stops) in
          match σ' !! output with
          | Some (Float2 o') => (accuracy o' t, σ')
          | _ => (Raise RuntimeError, σ')
          end
      end
  | Some (Long2 t), Some (Float3 o) =>
      match end_indices seq_len (length t) with
      | Raise e => (Raise e, σ)
      | Ok stops =>
          match zip (start_indices_rank2 t eos_index) stops with
          | [] => (accuracy_rank2 o t, σ)
          | _ :: _ => (Raise TypeError, σ)
          end
      end
  | _, _ => (Raise RuntimeError, σ)
  end.

(** What the loop of lines 19-20 leaves in the output tensor. *)
Definition masked_output (target : list Z) (pad_index eos_index : Z)
    (stops : list nat) (o : list (list Q)) : list (list Q) :=
  foldl (fun o p => slice_fill (S p.1) p.2 (inject_Z pad_index) o) o
        (zip (start_indices target eos_index) stops).

(** A store for the examples: four rows of scores over two classes at the
    reference 1 and the labels [target] at the reference 2. *)
Definition example_store (target : list Z) : store :=
  {[ 1%positive := Float2 [[0; 1]; [0; 1]; [0; 1]; [0; 1]]%Q;
     2%positive := Long1 target ]}.

(** A store with the batched layout: one sequence of two positions with
    scores over two classes at the reference 1, its labels at the
    reference 2. *)
Definition example_store_batched (target : list (list Z)) : store :=
  {[ 1%positive := Float3 [[[0; 1]; [0; 1]]]%Q;
     2%positive := Long2 target ]}.

(** *** Edit distance *)

(** [Lev.distance]: the least number of insertions, deletions and
    substitutions of one symbol that turn [s] into [t]. *)
Fixpoint levenshtein {A : Type} `{EqDecision A} (s t : list A) : nat :=
  match s with
  | [] => length t
  | a :: s' =>
      (fix inner (t : list A) : nat :=
         match t with
         | [] => length s
         | b :: t' =>
             Nat.min (Nat.min (S (levenshtein s' t)) (S (inner t')))
                     (levenshtein s' t' + (if decide (a = b) then 0 else 1))
         end) t
  end.

(** *** Strings *)

(** A Python [str] as the list of its characters. *)
Definition pystr : Type := list ascii.

(** ["".join(symbols)]. *)
Definition join (symbols : list pystr) : pystr := concat symbols.

(** [s.replace(" ", "")]. *)
Definition remove_spaces (s : pystr) : pystr :=
  filter (fun c => c ≠ " "%char) s.

(** The characters that [str.split()] treats as separators. *)
Definition is_space (c : ascii) : bool :=
  let n := nat_of_ascii c in
  ((9 <=? n) && (n <=? 13) || (28 <=? n) && (n <=? 32) || (n =? 133) || (n =? 160))%nat.

(** [s.split()]: the maximal runs of characters that are not separators.
    [cur] is the run being read, last character first. *)
Fixpoint split_from (cur : pystr) (s : pystr) : list pystr :=
  match s with
  | [] => match cur with [] => [] | _ => [rev cur] end
  | c :: s' =>
      if is_space c
      then match cur with
           | [] => split_from [] s'
           | _ => rev cur :: split_from [] s'
           end
      else split_from (c :: cur) s'
  end.

Definition split (s : pystr) : list pystr := split_from [] s.

(** A string literal as a Python [str]. *)
Definition str (s : string) : pystr := list_ascii_of_string s.

(** [chr(k)]: the character with code point [k]; a character of the
    surrogate string is kept as its code point. *)
Definition chr (k : nat) : result nat :=
  if (N.of_nat k <? 1114112)%N then Ok k else Raise ValueError.

(** [d[w]] for a dictionary built by [dict(zip(keys, values))] from keys
    without repetition. *)
Fixpoint dict_get (d : list (pystr * nat)) (w : pystr) : result nat :=
  match d with
  | [] => Raise KeyError
  | (w', k) :: d' => if decide (w' = w) then Ok k else dict_get d' w
  end.

Section ErrorRates.

(** [greedy_decoder] is imported from [text_recognizer.networks]; it is
    used through its signature: the scores, the targets and the target
    lengths go in, the decoded predictions and the decoded targets, one
    sequence of symbols per batch element, come out. *)
Variable greedy_decoder :
  list (list (list Q)) -> list (list Z) -> list nat ->
  list (list pystr) * list (list pystr).

(** The order in which Python enumerates [set(words)]: some enumeration
    of the distinct words, each once. *)
Variable set_order : list pystr -> list pystr.
Hypothesis set_order_NoDup : forall ws, NoDup (set_order ws).
Hypothesis set_order_elem : forall ws w, w ∈ set_order ws <-> w ∈ ws.

(** [t.shape[1]] of a tensor given by its rows. *)
Definition shape1 {A : Type} (t : list (list A)) : nat :=
  match t with
  | [] => 0
  | row :: _ => length row
  end.

(** Lines 55-57 and 86-88:
      torch.full(size=(outputs.shape[1],), fill_value=targets.shape[1]) *)
Definition target_lengths (outputs : list (list (list Q))) (targets : list (list Z))
  : list nat :=
  repeat (shape1 targets) (shape1 outputs).

(** Lines 65-71, the body of the loop of [cer]. *)
Definition cer_pair (prediction target : list pystr) : nat :=
  let prediction := join prediction in
  let target := join target in
  let prediction := remove_spaces prediction in
  let target := remove_spaces target in
  levenshtein prediction target.

(** Lines 62-72 of [cer], from the decoded sequences on. *)
Definition cer_decoded (decoded_predictions decoded_targets : list (list pystr))
  : result Q :=
  let lev_dist :=
    foldl (fun lev_dist pt => (lev_dist + cer_pair pt.1 pt.2)%nat) 0%nat
          (zip decoded_predictions decoded_targets) in
  int_div lev_dist (length decoded_predictions).

Definition cer (outputs : list (list (list Q))) (targets : list (list Z)) : result Q :=
  let '(decoded_predictions, decoded_targets) :=
    greedy_decoder outputs targets (target_lengths outputs targets) in
  cer_decoded decoded_predictions decoded_targets.

(** Lines 96-105, the body of the loop of [wer]. *)
Definition wer_pair (prediction target : list pystr) : result nat :=
  let prediction := join prediction in
  let target := join target in
  let b := set_order (split prediction ++ split target) in
  let word2char := zip b (seq 0 (length b)) in
  w1 ← mapM (fun w => k ← dict_get word2char w; chr k) (split prediction);
  w2 ← mapM (fun w => k ← dict_get word2char w; chr k) (split target);
  Ok (levenshtein w1 w2).

(** The loop of lines 93-105: the first exception ends it. *)
Fixpoint wer_loop (lev_dist : nat) (pairs : list (list pystr * list pystr))
  : result nat :=
  match pairs with
  | [] => Ok lev_dist
  | (prediction, target) :: pairs' =>
      d ← wer_pair prediction target;
      wer_loop (lev_dist + d) pairs'
  end.

(** Lines 93-107 of [wer], from the decoded sequences on. *)
Definition wer_decoded (decoded_predictions decoded_targets : list (list pystr))
  : result Q :=
  lev_dist ← wer_loop 0 (zip decoded_predictions decoded_targets);
  int_div lev_dist (length decoded_predictions).

Definition wer (outputs : list (list (list Q))) (targets : list (list Z)) : result Q :=
  let '(decoded_predictions, decoded_targets) :=
    greedy_decoder outputs targets (target_lengths outputs targets) in
  wer_decoded decoded_predictions decoded_targets.

(** What a call of [greedy_decoder] leaves in the store; its code is not
    among the sources. *)
Variable greedy_decoder_writes : loc -> loc -> store -> store.

(** A metric called with references to its two tensors, for the two
    layouts of scores and labels; [None] for any other pair of tensors,
    which the embedding does not cover. [accuracy], [cer] and [wer]
    contain no assignment to a tensor: what they leave in the store is
    what their callee leaves. *)
Definition call_accuracy (outputs labels : loc) (σ : store)
  : option (result pyfloat * store) :=
  match σ !! outputs, σ !! labels with
  | Some (Float2 o), Some (Long1 l) => Some (accuracy o l, σ)
  | Some (Float3 o), Some (Long2 l) => Some (accuracy_rank2 o l, σ)
  | _, _ => None
  end.

Definition call_cer (outputs targets : loc) (σ : store) : option (result Q * store) :=
  match σ !! outputs, σ !! targets with
  | Some (Float3 o), Some (Long2 t) =>
      Some (cer o t, greedy_decoder_writes outputs targets σ)
  | _, _ => None
  end.

Definition call_wer (outputs targets : loc) (σ : store) : option (result Q * store) :=
  match σ !! outputs, σ !! targets with
  | Some (Float3 o), Some (Long2 t) =>
      Some (wer o t, greedy_decoder_writes outputs targets σ)
  | _, _ => None
  end.

End ErrorRates.

(** A decoder for the examples: two batch elements, whatever the tensors. *)
Definition example_decoder
    (outputs : list (list (list Q))) (targets : list (list Z)) (lengths : list nat)
  : list (list pystr) * list (list pystr) :=
  ([[str "ab"]; [str "c d"]], [[str "a b"]; [str "cx"]]).

(** *** Texts laid out from words *)

(** A run of separators of [str.split()], and a word: a non-empty run of
    other characters. *)
Definition whitespace (s : pystr) : Prop := Forall (fun c => is_space c = true) s.

Definition is_word (w : pystr) : Prop :=
  w ≠ [] /\ Forall (fun c => is_space c = false) w.

(** The text that holds the words of [items] in their order, each after
    the gap that comes with it, and [trail] after the last word. *)
Definition layout (items : list (pystr * pystr)) (trail : pystr) : pystr :=
  concat (map (fun gw => gw.1 ++ gw.2) items) ++ trail.

(** The gaps and [trail] are whitespace, and no two words touch: only the
    gap before the first word may be empty. *)
Definition well_spaced (items : list (pystr * pystr)) (trail : pystr) : Prop :=
  Forall (fun gw => whitespace gw.1 /\ is_word gw.2) items /\
  Forall (fun gw => gw.1 ≠ []) (tail items) /\
  whitespace trail.

(** A sentence of 1114113 words, each followed by a space: the words
    ["a"], ["aa"], ["aaa"], ... and then [last]. *)
Definition many_words : list pystr :=
  (fun i => replicate (S i) "a"%char) <$> seq 0 (N.to_nat 1114112).

Definition long_sentence (last : pystr) : list pystr :=
  (fun w => w ++ str " ") <$> (many_words ++ [last]).

(** A decoder that returns no sequence at all. *)
Definition empty_decoder
    (outputs : list (list (list Q))) (targets : list (list Z)) (lengths : list nat)
  : list (list pystr) * list (list pystr) :=
  ([], []).

End Metrics.

(* ===================================================================== *)
(** ** Datasets (text_recognizer/data/base_dataset.py)                    *)
(* ===================================================================== *)

Module Dataset.

(** [mapping[token]]. *)
Definition mapping_get (mapping : gmap string Z) (token : string) : result Z :=
  match mapping !! token with
  | Some v => Ok v
  | None => Raise KeyError
  end.

(** [list(string)]: the characters, each a string of length one. *)
Definition chars (s : string) : list string :=
  map (fun c => String c EmptyString) (list_ascii_of_string s).

(** Line 79: [["<s>", *tokens, "<e>"]]. *)
Definition tokens_of (s : string) : list string :=
  "<s>"%string :: chars s ++ ["<e>"%string].

(** [labels[i, j] = v]. *)
Definition set_item (i j : nat) (v : Z) (labels : list (list Z)) : result (list (list Z)) :=
  match labels !! i with
  | Some row =>
      if (j <? length row)%nat then Ok (<[i := <[j := v]> row]> labels)
      else Raise IndexError
  | None => Raise IndexError
  end.

(** The range of a 64-bit integer, the element type of [labels]. *)
Definition int64 (z : Z) : Prop := (- 2 ^ 63 <= z < 2 ^ 63)%Z.

(** A conversion of a Python int to an element of a tensor that keeps the
    ints of the range. *)
Definition keeps_int64 (convert : Z -> result Z) : Prop :=
  forall z, int64 z -> convert z = Ok z.

Section Labels.

(** How torch turns a Python int into an element of a tensor of 64-bit
    integers: [mul_scalar v] is the element of
    [torch.ones(..., dtype=torch.long) * v], [item_scalar v] the element
    that [labels[i, j] = v] stores. An int of the range is kept; for
    others the product wraps around or raises and the assignment raises,
    depending on the int and on the version of torch, so the two
    conversions are parameters. *)
Variable mul_scalar : Z -> result Z.
Variable item_scalar : Z -> result Z.

(** Lines 80-81, the loop over [enumerate(tokens)], from position [j] on:
    the token is looked up, its index converted, and then the position
    is used. *)
Fixpoint fill_row (mapping : gmap string Z) (i j : nat) (tokens : list string)
    (labels : list (list Z)) : result (list (list Z)) :=
  match tokens with
  | [] => Ok labels
  | token :: tokens' =>
      v ← mapping_get mapping token;
      v ← item_scalar v;
      labels' ← set_item i j v labels;
      fill_row mapping i (S j) tokens' labels'
  end.

(** Lines 77-81, the loop over [enumerate(strings)], from row [i] on. *)
Fixpoint fill_rows (mapping : gmap string Z) (i : nat) (strings : list string)
    (labels : list (list Z)) : result (list (list Z)) :=
  match strings with
  | [] => Ok labels
  | s :: strings' =>
      labels' ← fill_row mapping i 0 (tokens_of s) labels;
      fill_rows mapping (S i) strings' labels'
  end.

(** Lines 76-82. *)
Definition convert_strings_to_labels (strings : list string) (mapping : gmap string Z)
    (length : nat) : result (list (list Z)) :=
  p ← mapping_get mapping "<p>"%string;
  p ← mul_scalar p;
  let labels := map (map (fun one => (one * p)%Z)) (Torch.ones (List.length strings) length) in
  fill_rows mapping 0 strings labels.

End Labels.

(** Two conversions for the examples: one that wraps around, as the
    arithmetic of 64-bit integers does, and one that refuses an int
    outside the range. *)
Definition wrap_int64 (z : Z) : result Z :=
  Ok ((z + 2 ^ 63) mod 2 ^ 64 - 2 ^ 63)%Z.

Definition check_int64 (z : Z) : result Z :=
  if ((- 2 ^ 63 <=? z) && (z <? 2 ^ 63))%Z then Ok z else Raise RuntimeError.

(** [sequence[index]] for a Python sequence: a negative index counts from
    the end, an index outside [-len, len) raises IndexError. *)
Definition py_getitem {A : Type} (sequence : list A) (index : Z) : result A :=
  let n := Z.of_nat (length sequence) in
  let position := if (index <? 0)%Z then (index + n)%Z else index in
  if ((0 <=? position) && (position <? n))%Z then
    match sequence !! Z.to_nat position with
    | Some x => Ok x
    | None => Raise IndexError
    end
  else Raise IndexError.

(** Lines 22-25. *)
Record BaseDataset (D T : Type) : Type := {
  data : list D;
  targets : list T;
  transform : option (D -> result D);
  target_transform : option (T -> result T)
}.
Arguments data {D T} _.
Arguments targets {D T} _.
Arguments transform {D T} _.
Arguments target_transform {D T} _.

(** The constructor that attrs generates, with lines 31-34. *)
Definition __attrs_post_init__ {D T : Type} (self : BaseDataset D T)
  : result (BaseDataset D T) :=
  if (length (data self) =? length (targets self))%nat then Ok self
  else Raise ValueError.

(** Lines 36-38. *)
Definition __len__ {D T : Type} (self : BaseDataset D T) : nat :=
  length (data self).

(** [f(x)] for an optional callable [f], as in lines 52-56. *)
Definition apply_optional {A : Type} (f : option (A -> result A)) (x : A) : result A :=
  match f with
  | Some g => g x
  | None => Ok x
  end.

(** Lines 40-58. *)
Definition __getitem__ {D T : Type} (self : BaseDataset D T) (index : Z)
  : result (D * T) :=
  datum ← py_getitem (data self) index;
  target ← py_getitem (targets self) index;
  datum ← apply_optional (transform self) datum;
  target ← apply_optional (target_transform self) target;
  Ok (datum, target).

(** The row that [convert_strings_to_labels] is documented to produce for
    the string [s]: the indices of ["<s>"], of the characters and of
    ["<e>"], then the pad index [p] up to [n] positions. *)
Definition label_row (mapping : gmap string Z) (p : Z) (n : nat)
    (s : string) (row : list Z) : Prop :=
  exists vs,
    Forall2 (fun token v => mapping !! token = Some v) (tokens_of s) vs /\
    row = vs ++ repeat p (n - length vs).

(** A string can be written when it leaves room for the two markers and
    all its tokens have an index. *)
Definition writable (mapping : gmap string Z) (n : nat) (s : string) : Prop :=
  (String.length s + 2 <= n)%nat /\
  Forall (fun token => is_Some (mapping !! token)) (tokens_of s).

(** A mapping for the examples. *)
Definition example_mapping : gmap string Z :=
  {[ "<p>"%string := 79%Z; "<s>"%string := 80%Z; "<e>"%string := 81%Z;
     "a"%string := 1%Z; "b"%string := 2%Z ]}.

End Dataset.

(* ===================================================================== *)
(** ** Experiments (training/run_experiment.py and
       training/prepare_experiments.py)                                   *)
(* ===================================================================== *)

Module Experiment.
Import Metrics.

(** The exceptions of the scripts: those of [pyerror], the StopIteration
    of [next], and the exceptions of the libraries they call. *)
Inductive exn : Type :=
  | StopIteration
  | Builtin (e : pyerror)
  | Library (name : pystr).

Inductive answer (A : Type) : Type :=
  | Return (a : A)
  | Throw (e : exn).
Arguments Return {A} a.
Arguments Throw {A} e.

#[export] Instance answer_ret : MRet answer := fun A a => Return a.
#[export] Instance answer_bind : MBind answer := fun A B k m =>
  match m with
  | Return a => k a
  | Throw e => Throw e
  end.

(** *** _import_class *)

(** The last ["."] of [s]: the characters before it and those after it. *)
Fixpoint last_dot (s : pystr) : option (pystr * pystr) :=
  match s with
  | [] => None
  | c :: s' =>
      match last_dot s' with
      | Some (before, after) => Some (c :: before, after)
      | None => if decide (c = "."%char) then Some ([], s') else None
      end
  end.

(** [s.rsplit(".", 1)]. *)
Definition rsplit_dot (s : pystr) : list pystr :=
  match last_dot s with
  | Some (before, after) => [before; after]
  | None => [s]
  end.

Section ImportClass.

(** [importlib.import_module] and [getattr]. *)
Variable Module_ : Type.
Variable Class_ : Type.
Variable import_module : pystr -> answer Module_.
Variable getattr : Module_ -> pystr -> answer Class_.

(** Lines 51-55: unpacking the list into two names raises ValueError
    unless it has two elements. *)
Definition _import_class (module_and_class_name : pystr) : answer Class_ :=
  match rsplit_dot module_and_class_name with
  | [module_name; class_name] =>
      module ← import_module module_name;
      getattr module class_name
  | _ => Throw (Builtin ValueError)
  end.

End ImportClass.

(** *** The calls into the libraries *)

(** A lightning callback as [_save_best_weights] finds it once the
    trainer has run: a model checkpoint with its best model path at that
    time, or a callback of another class. *)
Inductive callback : Type :=
  | ModelCheckpoint (best_model_path : pystr)
  | OtherCallback (name : pystr).

(** The calls that leave the scripts, in the order they are made. *)
Inductive event : Type :=
  | Info (message : pystr)        (* logger.info(message) *)
  | WandbSave (path : pystr)      (* wandb.save(path) *)
  | TrainerTune                   (* trainer.tune(lit_model, datamodule=...) *)
  | TrainerFit                    (* trainer.fit(lit_model, datamodule=...) *)
  | TrainerTest.                  (* trainer.test(lit_model, datamodule=...) *)

(** A computation that makes such calls: from the calls made so far to an
    answer and the calls made by then. *)
Definition script (A : Type) : Type := list event -> answer A * list event.

#[export] Instance script_ret : MRet script := fun A a trace => (Return a, trace).
#[export] Instance script_bind : MBind script := fun A B k m trace =>
  match m trace with
  | (Return a, trace') => k a trace'
  | (Throw e, trace') => (Throw e, trace')
  end.

Definition throw {A : Type} (e : exn) : script A := fun trace => (Throw e, trace).

Section Run.

(** Whether a call into a library raises, given the calls made before. *)
Variable fails : list event -> event -> option exn.

Definition call (e : event) : script unit := fun trace =>
  match fails trace e with
  | None => (Return tt, trace ++ [e])
  | Some x => (Throw x, trace ++ [e])
  end.

(** Lines 85-89: [next(...)] over the callbacks that are model
    checkpoints. *)
Fixpoint first_checkpoint (pl_callbacks : list callback) : answer pystr :=
  match pl_callbacks with
  | [] => Throw StopIteration
  | ModelCheckpoint best_model_path :: _ => Return best_model_path
  | OtherCallback _ :: pl_callbacks' => first_checkpoint pl_callbacks'
  end.

(** Lines 81-95. *)
Definition _save_best_weights (pl_callbacks : list callback) (use_wandb : bool)
  : script unit :=
  match first_checkpoint pl_callbacks with
  | Throw e => throw e
  | Return best_model_path =>
      match best_model_path with
      | [] => mret tt
      | _ =>
          _ ← call (Info (str "Best model saved at: " ++ best_model_path));
          if use_wandb then
            _ ← call (Info (str "Uploading model to W&B..."));
            call (WandbSave best_model_path)
          else mret tt
      end
  end.

(** The part of the configuration that lines 157-174 read. *)
Record trainer_config : Type := {
  fast_dev_run : bool;
  tune : bool;
  train : bool;
  test : bool;
  wandb : bool
}.

Definition when (b : bool) (m : script unit) : script unit :=
  if b then m else mret tt.

(** Lines 157-174 of [run], after the trainer has been built. *)
Definition run_trainer (config : trainer_config) (pl_callbacks : list callback)
  : script unit :=
  if fast_dev_run config then
    _ ← call (Info (str "Fast development run..."));
    call TrainerFit
  else
    _ ← when (tune config)
          (_ ← call (Info (str "Tuning learning rate and batch size..."));
           call TrainerTune);
    _ ← when (train config)
          (_ ← call (Info (str "Training network..."));
           call TrainerFit);
    _ ← when (test config)
          (_ ← call (Info (str "Testing network..."));
           call TrainerTest);
    _save_best_weights pl_callbacks (wandb config).

End Run.

(** A callback that is not a model checkpoint. *)
Definition is_other (cb : callback) : Prop :=
  match cb with
  | ModelCheckpoint _ => False
  | OtherCallback _ => True
  end.

(** The calls of the three optional phases of [run_trainer], in order. *)
Definition phase_events (config : trainer_config) : list event :=
  (if tune config
   then [Info (str "Tuning learning rate and batch size..."); TrainerTune] else [])
  ++ (if train config then [Info (str "Training network..."); TrainerFit] else [])
  ++ (if test config then [Info (str "Testing network..."); TrainerTest] else []).

(** The calls that a script adds to the trace all satisfy [P], however the
    script ends. *)
Definition emits {A : Type} (P : event -> Prop) (m : script A) : Prop :=
  forall trace a trace',
    m trace = (a, trace') ->
    exists events, trace' = trace ++ events /\ Forall P events.

(** *** prepare_experiments.run_experiments *)

(** A key of a mapping, as far as a look-up with a string or with an
    integer can tell: a string; a key equal to the integer [z] (an int,
    or a bool or a float of that value); any other key. *)
Inductive key : Type :=
  | KStr (s : pystr)
  | KInt (z : Z)
  | KOther.

#[export] Instance key_eq_dec : EqDecision key.
Proof. solve_decision. Defined.

(** The objects that [yaml.safe_load] builds, by what the script can do
    with them. They live in a heap: an alias of the document is a second
    reference to one object, and a mapping that is changed is changed
    for all who refer to it. A mapping keeps its entries in the order of
    the file. *)
Inductive node : Type :=
  | NScalar                               (* null, a bool, a number, a date *)
  | NStr (s : pystr)
  | NBytes (n : nat)                      (* a binary of [n] bytes *)
  | NSet (n : nat)                        (* a set of [n] elements *)
  | NSeq (items : list loc)               (* a list, or a tuple of a list of pairs *)
  | NDict (entries : list (key * loc)).

Abbreviation heap := (gmap loc node).

(** What an expression evaluates to: an object of the heap, or a new
    object to which nothing else refers (a character of a string, a byte
    of a binary). *)
Inductive value : Type :=
  | Ref (l : loc)
  | Temp (n : node).

(** The object behind a value. A reference of a loaded document always
    has its object; the default is for a reference from nowhere. *)
Definition node_of (h : heap) (v : value) : node :=
  match v with
  | Ref l => default NScalar (h !! l)
  | Temp n => n
  end.

(** [len(v)]. *)
Definition py_len (h : heap) (v : value) : answer nat :=
  match node_of h v with
  | NStr s => Return (length s)
  | NBytes n | NSet n => Return n
  | NSeq items => Return (length items)
  | NDict entries => Return (length entries)
  | NScalar => Throw (Builtin TypeError)
  end.

Fixpoint entries_get (entries : list (key * loc)) (k : key) : answer loc :=
  match entries with
  | [] => Throw (Builtin KeyError)
  | (k', l) :: entries' => if decide (k' = k) then Return l else entries_get entries' k
  end.

(** [v[s]] for a string [s]. *)
Definition getitem_str (h : heap) (v : value) (s : pystr) : answer loc :=
  match node_of h v with
  | NDict entries => entries_get entries (KStr s)
  | _ => Throw (Builtin TypeError)
  end.

(** [v[index]] for an integer [index] of [range(...)]: an element of a
    list, a new string for a character, a new int for a byte, the value
    of a mapping under a key equal to [index]. *)
Definition getitem_int (h : heap) (v : value) (index : nat) : answer value :=
  match node_of h v with
  | NSeq items =>
      match items !! index with
      | Some l => Return (Ref l)
      | None => Throw (Builtin IndexError)
      end
  | NStr s =>
      match s !! index with
      | Some c => Return (Temp (NStr [c]))
      | None => Throw (Builtin IndexError)
      end
  | NBytes n =>
      if (index <? n)%nat then Return (Temp NScalar) else Throw (Builtin IndexError)
  | NDict entries =>
      match entries_get entries (KInt (Z.of_nat index)) with
      | Return l => Return (Ref l)
      | Throw e => Throw e
      end
  | NSet _ | NScalar => Throw (Builtin TypeError)
  end.

(** [d[k] = l] on the entries of a mapping: the value of an existing key
    is replaced where it stands, a new key goes to the end. *)
Fixpoint entries_set (entries : list (key * loc)) (k : key) (l : loc)
  : list (key * loc) :=
  match entries with
  | [] => [(k, l)]
  | (k', l') :: entries' =>
      if decide (k' = k) then (k', l) :: entries'
      else (k', l') :: entries_set entries' k l
  end.

(** [v[s] = l] for a string [s]: only a mapping takes it, and the mapping
    itself is changed. *)
Definition setitem_str (h : heap) (v : value) (s : pystr) (l : loc) : answer heap :=
  match v with
  | Ref r =>
      match h !! r with
      | Some (NDict entries) => Return (<[r := NDict (entries_set entries (KStr s) l)]> h)
      | _ => Throw (Builtin TypeError)
      end
  | Temp _ => Throw (Builtin TypeError)
  end.

Section RunExperiments.

(** [json.dumps] of an object of the heap: the text, or the exception for
    an object that has no JSON form (a date, a set, a mapping that
    contains itself). *)
Variable dumps : heap -> value -> answer pystr.

(** Lines 17-19, one turn of the loop: the command, and the heap with
    the experiment's mapping changed. *)
Definition experiment_command (experiments_config : loc) (index : nat) (h : heap)
  : answer (pystr * heap) :=
  experiments ← getitem_str h (Ref experiments_config) (str "experiments");
  experiment_config ← getitem_int h (Ref experiments) index;
  group ← getitem_str h (Ref experiments_config) (str "experiment_group");
  h' ← setitem_str h experiment_config (str "experiment_group") group;
  text ← dumps h' experiment_config;
  Return (str "python training/run_experiment.py --gpu=-1 --save '"
          ++ text ++ str "'", h').

(** Lines 16-20, the loop: the lines printed so far, and the exception
    that ended the loop, if any. *)
Fixpoint print_commands (experiments_config : loc) (indices : list nat)
    (h : heap) (printed : list pystr) : answer unit * list pystr :=
  match indices with
  | [] => (Return tt, printed)
  | index :: indices' =>
      match experiment_command experiments_config index h with
      | Return (cmd, h') =>
          print_commands experiments_config indices' h' (printed ++ [cmd])
      | Throw e => (Throw e, printed)
      end
  end.

(** Lines 10-20 of [run_experiments], from the loaded document on: the
    heap that [yaml.safe_load] has built and the reference to the
    document's top object. *)
Definition run_experiments (h : heap) (experiments_config : loc)
  : answer unit * list pystr :=
  match (experiments ← getitem_str h (Ref experiments_config) (str "experiments");
         py_len h (Ref experiments)) with
  | Return num_experiments =>
      print_commands experiments_config (seq 0 num_experiments) h []
  | Throw e => (Throw e, [])
  end.

End RunExperiments.

(** The heap after line 18 has run for the experiments [experiments], in
    their order, with the group [group]. *)
Definition with_group (group : loc) (h : heap) (experiment : loc) : heap :=
  match h !! experiment with
  | Some (NDict entries) =>
      <[experiment := NDict (entries_set entries (KStr (str "experiment_group")) group)]> h
  | _ => h
  end.

Definition with_groups (group : loc) (h : heap) (experiments : list loc) : heap :=
  foldl (with_group group) h experiments.

(** A [json.dumps] for the examples: of a mapping it shows the string
    under ["experiment_group"] only, and it refuses everything else. *)
Definition example_dumps (h : heap) (v : value) : answer pystr :=
  match node_of h v with
  | NDict entries =>
      match entries_get entries (KStr (str "experiment_group")) with
      | Return l =>
          match h !! l with
          | Some (NStr s) => Return s
          | _ => Throw (Builtin TypeError)
          end
      | Throw e => Throw (Builtin ValueError)
      end
  | _ => Throw (Builtin TypeError)
  end.

(** A document for the examples:
      experiment_group: lines
      experiments: [&a {experiment_group: own}, {model: cnn}, *a]  *)
Definition example_document : heap :=
  {[ 1%positive := NDict [(KStr (str "experiment_group"), 2%positive);
                          (KStr (str "experiments"), 3%positive)];
     2%positive := NStr (str "lines");
     3%positive := NSeq [4%positive; 6%positive; 4%positive];
     4%positive := NDict [(KStr (str "experiment_group"), 5%positive)];
     5%positive := NStr (str "own");
     6%positive := NDict [(KStr (str "model"), 7%positive)];
     7%positive := NStr (str "cnn") ]}.

End Experiment.

(* ===================================================================== *)
(** ** Results on Reader.predict                                          *)
(* ===================================================================== *)

Module ReaderFacts.
Import Reader.

Lemma raises_bind {A B : Type} (m : result A) (k : A -> result B) :
  raises m -> raises (m ≫= k).
Proof. intros [e ->]. by exists e. Qed.

Lemma raises_Raise {A : Type} (e : pyerror) : raises (@Raise A e).
Proof. by exists e. Qed.

#[local] Hint Resolve raises_Raise : core.

Lemma tensor_bool_raises (t : list bool) :
  length t ≠ 1%nat -> Torch.tensor_bool t = Raise RuntimeError.
Proof. destruct t as [|b [|b' t]]; simpl; intros; try done. Qed.

Lemma concat_length_ne_1 {A : Type} (n : nat) (t : list (list A)) :
  (2 <= n)%nat -> Forall (fun row => length row = n) t -> length (concat t) ≠ 1%nat.
Proof.
  intros Hn Ht. destruct Ht as [|row t Hrow _]; simpl; [lia|].
  rewrite length_app. lia.
Qed.

Lemma set_column_rows (n j : nat) (tokens : list Z) (t t' : Torch.matrix) :
  Forall (fun row => length row = n) t ->
  Torch.set_column j tokens t = Ok t' ->
  Forall (fun row => length row = n) t'.
Proof.
  unfold Torch.set_column. intros Ht. destruct tokens as [|tok [|]]; try done.
  intros [= <-]. apply Forall_map. eapply Forall_impl; [exact Ht|].
  intros row Hrow. simpl. by rewrite length_insert.
Qed.

Lemma init_output_rows (self : config) (bsz : nat) (t : Torch.matrix) :
  init_output self bsz = Ok t ->
  length t = bsz /\ Forall (fun row => length row = max_output_len self) t.
Proof.
  unfold init_output, Torch.set_column_scalar, Torch.ones.
  destruct (_ <? _)%nat; [|done]. intros [= <-]. split.
  - by rewrite length_map, repeat_length.
  - apply Forall_map, Forall_forall. intros row Hrow.
    apply list_elem_of_In, repeat_spec in Hrow. subst row.
    simpl. by rewrite length_insert, repeat_length.
Qed.

Section Loop.

Variable Image : Type.
Variable shape0 : Image -> nat.
Variable next_tokens : Image -> Torch.matrix -> result (list Z).
Variable self : config.

Lemma early_stop_check_never_answers (output : Torch.matrix) (i : nat) :
  Forall (fun row => length row = max_output_len self) output ->
  (1 <= i < max_output_len self)%nat ->
  raises (early_stop_check self output i).
Proof.
  intros Hrows Hi. unfold early_stop_check.
  set (a := Torch.column (i - 1) output).
  set (b := map (map (Z.lor (end_index self))) (take (i - 1) output)).
  assert (Hb : Forall (fun row => length row = max_output_len self) b).
  { subst b. apply Forall_map, Forall_take.
    eapply Forall_impl; [exact Hrows|]. intros row Hrow. simpl.
    by rewrite length_map. }
  unfold Torch.eq_1d_2d.
  destruct (length a =? max_output_len self)%nat eqn:Ea; [|
    destruct (length a =? 1)%nat eqn:Ea1; [|
      destruct (max_output_len self =? 1)%nat eqn:El;
        [apply Nat.eqb_eq in El; lia | by apply raises_bind]]].
  - unfold mbind at 1, result_bind, rbind.
    apply raises_bind. rewrite tensor_bool_raises; [done|].
    apply (concat_length_ne_1 (max_output_len self)); [lia|].
    apply Forall_map. eapply Forall_impl; [exact Hb|]. intros row Hrow. simpl in *.
    apply Nat.eqb_eq in Ea. rewrite length_zip_with. lia.
  - unfold mbind at 1, result_bind, rbind.
    apply raises_bind. rewrite tensor_bool_raises; [done|].
    apply (concat_length_ne_1 (max_output_len self)); [lia|].
    apply Forall_map. eapply Forall_impl; [exact Hb|]. intros row Hrow. simpl in *.
    by rewrite length_map.
Qed.

Lemma generate_raises (x : Image) (i : nat) (steps : list nat) (output : Torch.matrix) :
  Forall (fun row => length row = max_output_len self) output ->
  (1 <= i < max_output_len self)%nat ->
  raises (generate Image next_tokens self x (i :: steps) output).
Proof.
  intros Hrows Hi. simpl.
  destruct (next_tokens x (map (take i) output)) as [tokens|e]; simpl; [|eauto].
  destruct (Torch.set_column i tokens output) as [output'|e] eqn:Eset; simpl; [|eauto].
  apply raises_bind, early_stop_check_never_answers; [|done].
  by eapply set_column_rows.
Qed.

Lemma predict_raises (x : Image) :
  (2 <= max_output_len self)%nat ->
  raises (predict Image shape0 next_tokens self x).
Proof.
  intros Hlen. unfold predict.
  destruct (init_output self (shape0 x)) as [output|e] eqn:Einit; simpl; [|eauto].
  apply init_output_rows in Einit as [_ Hrows].
  apply raises_bind.
  destruct (max_output_len self) as [|[|n]] eqn:El; [lia|lia|].
  replace (S (S n) - 1)%nat with (S n) by lia. simpl seq.
  apply generate_raises; [by rewrite El | lia].
Qed.


End Loop.

Lemma lookup_repeat {A : Type} (v : A) (n j : nat) :
  (j < n)%nat -> repeat v n !! j = Some v.
Proof.
  revert j. induction n as [|n IH]; intros [|j] Hj; simpl; try lia; [done|].
  apply IH. lia.
Qed.

Lemma init_output_eq (self : config) (bsz : nat) :
  (0 < max_output_len self)%nat ->
  init_output self bsz =
    Ok (repeat (start_index self :: repeat 1%Z (max_output_len self - 1)) bsz).
Proof.
  intros Hlen. unfold init_output, Torch.set_column_scalar, Torch.ones.
  destruct (max_output_len self) as [|n]; [lia|]. simpl.
  replace (n - 0)%nat with n by lia.
  f_equal. induction bsz as [|bsz IH]; simpl; by f_equal.
Qed.

(** C3, as amended: when [max_output_len] is positive, the buffer that
    [predict] starts from has one row of [max_output_len] positions per
    batch element; position 0 of every row holds the start index and every
    other position holds the integer 1 ([torch.ones]), whatever the pad
    index is. *)
Theorem init_output_start_then_ones (self : config) (bsz : nat) :
  (0 < max_output_len self)%nat ->
  exists output,
    init_output self bsz = Ok output /\
    length output = bsz /\
    forall row, row ∈ output ->
      length row = max_output_len self /\
      row !! 0%nat = Some (start_index self) /\
      forall j, (0 < j < max_output_len self)%nat -> row !! j = Some 1%Z.
Proof.
  intros Hlen. eexists. split; [by apply init_output_eq|].
  split; [by rewrite repeat_length|].
  intros row Hrow. apply list_elem_of_In, repeat_spec in Hrow. subst row.
  split; [|split].
  - simpl. rewrite repeat_length. lia.
  - done.
  - intros j Hj. destruct j as [|j]; [lia|]. simpl.
    apply lookup_repeat. lia.
Qed.

Lemma init_output_start_then_ones_witness :
  exists output,
    init_output demo 2 = Ok output /\
    length output = 2%nat /\
    forall row, row ∈ output ->
      length row = 3%nat /\
      row !! 0%nat = Some 80%Z /\
      forall j, (0 < j < 3)%nat -> row !! j = Some 1%Z.
Proof. apply (init_output_start_then_ones demo 2). simpl. lia. Defined.

(** C3, as stated, fails: with pad index 79 the positions after the first
    hold 1, not 79. *)
Lemma init_output_not_pad :
  ~ (exists output,
       init_output demo 1 = Ok output /\
       forall row, row ∈ output ->
         row !! 0%nat = Some (start_index demo) /\
         forall j, (0 < j < max_output_len demo)%nat ->
           row !! j = Some (pad_index demo)).
Proof.
  intros (output & Hinit & Hrows). vm_compute in Hinit.
  injection Hinit as <-.
  destruct (Hrows [80; 1; 1]%Z) as [_ Hpad]; [by left|].
  specialize (Hpad 1%nat). simpl in Hpad.
  assert (Hj : (0 < 1 < 3)%nat) by lia.
  by specialize (Hpad Hj).
Qed.

(** C2: the condition of the early stop never evaluates to a truth value.
    For a buffer of [max_output_len] columns and a step [i] of the loop,
    [early_stop_check] raises: the comparison [output[:, i - 1] ==
    self.end_index | output[: i - 1]] is against [i - 1] whole rows of the
    buffer, so its result has no element or at least [max_output_len]
    elements, and [bool()] of it is refused. The check therefore neither
    stops the loop when every token at [i - 1] is end or pad, nor lets it
    go on otherwise. *)
Theorem early_stop_check_raises (self : config) (output : Torch.matrix) (i : nat) :
  Forall (fun row => length row = max_output_len self) output ->
  (1 <= i < max_output_len self)%nat ->
  early_stop_check self output i ≠ Ok true /\
  early_stop_check self output i ≠ Ok false /\
  exists e, early_stop_check self output i = Raise e.
Proof.
  intros Hrows Hi.
  destruct (early_stop_check_never_answers self output i Hrows Hi) as [e He].
  rewrite He. repeat split; try done. by exists e.
Qed.

Lemma early_stop_check_raises_witness :
  Forall (fun v => v = 81%Z \/ v = 79%Z) (Torch.column 1 [[80; 81; 81]]%Z) /\
  early_stop_check demo [[80; 81; 81]]%Z 2 ≠ Ok true /\
  early_stop_check demo [[80; 81; 81]]%Z 2 ≠ Ok false /\
  exists e, early_stop_check demo [[80; 81; 81]]%Z 2 = Raise e.
Proof.
  split.
  - repeat constructor.
  - apply (early_stop_check_raises demo [[80; 81; 81]]%Z 2).
    + repeat constructor.
    + simpl. lia.
Defined.

(** C4: with a step decoder whose arg-max is the end token at every step,
    and [max_output_len > 2], [predict] does not return
    [start, end, pad, pad, ...]: it raises in the first step, for one
    image at the early-stop check and for any other number of images at
    the assignment of the tokens. *)
Theorem predict_end_decoder_raises
    (Image : Type) (shape0 : Image -> nat)
    (next_tokens : Image -> Torch.matrix -> result (list Z))
    (self : config) (x : Image) :
  (2 < max_output_len self)%nat ->
  (forall context,
     next_tokens x context = Ok (repeat (end_index self) (shape0 x))) ->
  predict Image shape0 next_tokens self x ≠
    Ok (repeat (start_index self :: end_index self ::
                repeat (pad_index self) (max_output_len self - 2)) (shape0 x)) /\
  exists e, predict Image shape0 next_tokens self x = Raise e.
Proof.
  intros Hlen _.
  destruct (predict_raises Image shape0 next_tokens self x) as [e He]; [lia|].
  rewrite He. split; [done|by exists e].
Qed.

Lemma predict_end_decoder_raises_witness :
  predict unit (fun _ => 1%nat) (fun _ _ => Ok [81%Z]) demo tt ≠
    Ok [[80; 81; 79]]%Z /\
  exists e, predict unit (fun _ => 1%nat) (fun _ _ => Ok [81%Z]) demo tt = Raise e.
Proof.
  apply (predict_end_decoder_raises unit (fun _ => 1%nat) (fun _ _ => Ok [81%Z]) demo tt).
  - simpl. lia.
  - reflexivity.
Defined.



End ReaderFacts.

(* ===================================================================== *)
(** ** Results on the metrics                                             *)
(* ===================================================================== *)

Module MetricsFacts.
Import Metrics.

(** *** Edit distance *)

Section Levenshtein.

Context {A : Type} `{EqDecision A}.
Implicit Types s t u v : list A.

Lemma levenshtein_nil_r s : levenshtein s [] = length s.
Proof. by destruct s. Qed.

Lemma levenshtein_cons_cons a b s t :
  levenshtein (a :: s) (b :: t) =
    Nat.min (Nat.min (S (levenshtein s (b :: t))) (S (levenshtein (a :: s) t)))
            (levenshtein s t + (if decide (a = b) then 0 else 1)).
Proof. done. Qed.

Lemma levenshtein_refl s : levenshtein s s = 0%nat.
Proof.
  induction s as [|a s IH]; [done|].
  rewrite levenshtein_cons_cons, IH. destruct (decide (a = a)); [lia|done].
Qed.

Lemma levenshtein_eq_0 s t : levenshtein s t = 0%nat -> s = t.
Proof.
  revert t. induction s as [|a s IH]; intros [|b t] Hd; try done.
  rewrite levenshtein_cons_cons in Hd.
  destruct (decide (a = b)) as [->|]; [|lia].
  f_equal. apply IH. lia.
Qed.

Lemma levenshtein_0_iff s t : levenshtein s t = 0%nat <-> s = t.
Proof. split; [apply levenshtein_eq_0|intros ->; apply levenshtein_refl]. Qed.

Lemma levenshtein_prefix_le u s t :
  (levenshtein (u ++ s) (u ++ t) <= levenshtein s t)%nat.
Proof.
  induction u as [|a u IH]; [done|]. simpl app.
  rewrite levenshtein_cons_cons. destruct (decide (a = a)); [lia|done].
Qed.

(** Replacing one symbol by a different one costs exactly one edit. *)
Lemma levenshtein_substitution u v (x y : A) :
  x ≠ y -> levenshtein (u ++ x :: v) (u ++ y :: v) = 1%nat.
Proof.
  intros Hxy.
  assert (Hle : (levenshtein (u ++ x :: v) (u ++ y :: v) <= 1)%nat).
  { etrans; [apply levenshtein_prefix_le|].
    rewrite levenshtein_cons_cons, levenshtein_refl.
    destruct (decide (x = y)); lia. }
  assert (Hne : levenshtein (u ++ x :: v) (u ++ y :: v) ≠ 0%nat).
  { intros Hd. apply levenshtein_eq_0, app_inv_head in Hd. congruence. }
  lia.
Qed.

End Levenshtein.

Example levenshtein_kitten_sitting :
  levenshtein (str "kitten") (str "sitting") = 3%nat.
Proof. reflexivity. Qed.

Example levenshtein_empty : levenshtein (str "") (str "abc") = 3%nat.
Proof. reflexivity. Qed.

Example split_runs : split (str "  the quick   fox ") = [str "the"; str "quick"; str "fox"].
Proof. reflexivity. Qed.

(** The distance only looks at which symbols are equal: it is the same
    for two pairs of sequences whose symbols correspond one to one. *)
Lemma levenshtein_rel {A B : Type} `{EqDecision A} `{EqDecision B}
    (R : A -> B -> Prop) (s t : list A) (s' t' : list B) :
  (forall a b a' b', R a a' -> R b b' -> a = b <-> a' = b') ->
  Forall2 R s s' -> Forall2 R t t' ->
  levenshtein s' t' = levenshtein s t.
Proof.
  intros HR Hs. revert t t'.
  induction Hs as [|a a' s s' Ha Hs IHs]; intros t t' Ht.
  - simpl. symmetry. by eapply Forall2_length.
  - induction Ht as [|b b' t t' Hb Ht IHt].
    + simpl. f_equal. symmetry. by eapply Forall2_length.
    + rewrite !levenshtein_cons_cons.
      rewrite IHt, (IHs (b :: t) (b' :: t')), (IHs t t'); [|done|by constructor].
      destruct (decide (a = b)) as [Hab|Hab], (decide (a' = b')) as [Hab'|Hab'];
        try done; exfalso.
      * by apply Hab', (HR a b a' b').
      * by apply Hab, (HR a b a' b').
Qed.

(** *** The result monad *)

Lemma mapM_Ok {A B : Type} (f : A -> result B) (l : list A) (k : list B) :
  mapM f l = Ok k <-> Forall2 (fun x y => f x = Ok y) l k.
Proof.
  revert k. induction l as [|x l IH]; intros k; simpl; unfold mret, result_ret.
  - split; [intros [= <-]; constructor | by inversion 1].
  - destruct (f x) as [y|e] eqn:Ef; simpl.
    + destruct (mapM f l) as [k'|e] eqn:El; simpl.
      * split.
        -- intros [= <-]. constructor; [done|by apply IH].
        -- inversion 1 as [|? y' ? k'' Hy Hk]; subst.
           apply IH in Hk. congruence.
      * split; [done|]. inversion 1 as [|? y' ? k'' Hy Hk]; subst.
        by apply IH in Hk.
    + split; [done|]. inversion 1; congruence.
Qed.

Lemma mapM_Ok_map {A B : Type} (f : A -> result B) (g : A -> B) (l : list A) :
  Forall (fun x => f x = Ok (g x)) l -> mapM f l = Ok (map g l).
Proof.
  intros Hl. apply mapM_Ok. induction Hl; simpl; by constructor.
Qed.

(** *** accuracy *)

Lemma count_true_le (t : list bool) : (count_true t <= length t)%nat.
Proof. apply length_filter. Qed.

Lemma count_true_zip_eqb_refl (l : list Z) :
  count_true (zip_with Z.eqb l l) = length l.
Proof.
  unfold count_true. induction l as [|v l IH]; [done|]. simpl.
  rewrite filter_cons, Z.eqb_refl. destruct (decide (true = true)); [|done].
  simpl. by rewrite IH.
Qed.

Lemma count_true_zip_eqb_none (p l : list Z) :
  Forall2 (fun a b => a ≠ b) p l -> count_true (zip_with Z.eqb p l) = 0%nat.
Proof.
  unfold count_true. induction 1 as [|a b p l Hab _ IH]; [done|]. simpl.
  rewrite filter_cons. apply Z.eqb_neq in Hab. rewrite Hab.
  by destruct (decide (false = true)).
Qed.

Lemma fraction_bounds (c n : nat) :
  (0 < n)%nat -> (c <= n)%nat ->
  (0 <= Z.of_nat c # Pos.of_nat n)%Q /\ (Z.of_nat c # Pos.of_nat n <= 1)%Q.
Proof.
  intros Hn Hc. unfold Qle. simpl.
  assert (Z.pos (Pos.of_nat n) = Z.of_nat n) as ->.
  { destruct n; [lia|]. simpl. lia. }
  lia.
Qed.

Lemma argmax_from_best_1 (l : Z) (best_i i n : nat) :
  argmax_from best_i 1 i
    (map (fun k => if Z.eqb (Z.of_nat k) l then 1%Q else 0%Q) (seq i n)) = best_i.
Proof.
  revert i. induction n as [|n IH]; intros i; [done|]. simpl.
  destruct (Z.of_nat i =? l)%Z;
    (destruct (Qlt_le_dec _ _) as [Hlt|_]; [by vm_compute in Hlt | apply IH]).
Qed.

Lemma argmax_from_best_0 (l : Z) (best_i i n : nat) :
  (Z.of_nat i <= l < Z.of_nat (i + n))%Z ->
  Z.of_nat (argmax_from best_i 0 i
    (map (fun k => if Z.eqb (Z.of_nat k) l then 1%Q else 0%Q) (seq i n))) = l.
Proof.
  revert i. induction n as [|n IH]; intros i Hl; [lia|]. simpl.
  destruct (Z.of_nat i =? l)%Z eqn:Ei.
  - destruct (Qlt_le_dec _ _) as [_|Hle]; [|by vm_compute in Hle].
    rewrite argmax_from_best_1. by apply Z.eqb_eq.
  - destruct (Qlt_le_dec _ _) as [Hlt|_]; [by vm_compute in Hlt|].
    apply Z.eqb_neq in Ei. apply IH. lia.
Qed.

Lemma argmax_one_hot (classes : nat) (l : Z) :
  (0 <= l < Z.of_nat classes)%Z -> argmax (one_hot classes l) = Ok l.
Proof.
  intros Hl. unfold one_hot. destruct classes as [|n]; [lia|].
  change (seq 0 (S n)) with (0%nat :: seq 1 n). cbn [map argmax]. f_equal.
  destruct (Z.of_nat 0 =? l)%Z eqn:E0.
  - rewrite argmax_from_best_1. by apply Z.eqb_eq.
  - apply Z.eqb_neq in E0. apply (argmax_from_best_0 l 0 1 n). lia.
Qed.

Lemma accuracy_same_length (outputs : list (list Q)) (labels predicted : list Z) :
  mapM argmax outputs = Ok predicted ->
  length predicted = length labels ->
  accuracy outputs labels =
    Ok (tensor_div (count_true (zip_with Z.eqb predicted labels)) (length labels)).
Proof.
  intros Hp Hlen. unfold accuracy, eq_1d. rewrite Hp. simpl.
  apply Nat.eqb_eq in Hlen. by rewrite Hlen.
Qed.

(** C6, as amended: for scores of shape (N, C) and labels of shape (N,)
    with N > 0, [accuracy] returns the number of positions whose arg-max
    class equals the label, divided by [labels.shape[0]] = N; the value
    lies between 0 and 1, it is 0 when every prediction is wrong and 1 when
    the scores are the one-hot encodings of the labels. (For labels of a
    higher rank the divisor is still the first dimension, and for N = 0 the
    value is not a number.) *)
Theorem accuracy_rank1_fraction (outputs : list (list Q)) (labels : list Z) :
  labels ≠ [] ->
  length outputs = length labels ->
  Forall (fun row => row ≠ []) outputs ->
  exists predicted q,
    mapM argmax outputs = Ok predicted /\
    q = (Z.of_nat (count_true (zip_with Z.eqb predicted labels))
         # Pos.of_nat (length labels)) /\
    accuracy outputs labels = Ok (Fin q) /\
    (0 <= q)%Q /\ (q <= 1)%Q /\
    (Forall2 (fun p l => p ≠ l) predicted labels -> q == 0) /\
    (forall classes,
       Forall (fun l => (0 <= l < Z.of_nat classes)%Z) labels ->
       outputs = map (one_hot classes) labels ->
       q == 1).
Proof.
  intros Hne Hlen Hrows.
  set (g := fun row : list Q =>
              match row with
              | [] => 0%Z
              | v :: row' => Z.of_nat (argmax_from 0 v 1 row')
              end).
  assert (Hp : mapM argmax outputs = Ok (map g outputs)).
  { apply mapM_Ok_map. eapply Forall_impl; [exact Hrows|].
    by intros [|v row] Hrow. }
  assert (Hlp : length (map g outputs) = length labels) by by rewrite length_map.
  assert (Hn : (0 < length labels)%nat) by (destruct labels; [done|simpl; lia]).
  assert (Hc : (count_true (zip_with Z.eqb (map g outputs) labels) <= length labels)%nat).
  { etrans; [apply count_true_le|]. rewrite length_zip_with. lia. }
  exists (map g outputs). eexists. split; [done|]. split; [reflexivity|].
  split; [|split; [|split; [|split]]].
  - rewrite (accuracy_same_length _ _ _ Hp Hlp). unfold tensor_div.
    destruct (length labels); [lia|done].
  - by apply fraction_bounds.
  - by apply fraction_bounds.
  - intros Hwrong. by rewrite count_true_zip_eqb_none.
  - intros classes Hl Hout.
    assert (Hpl : map g outputs = labels).
    { assert (Hp' : mapM argmax outputs = Ok labels).
      { rewrite Hout. apply mapM_Ok.
        clear -Hl. induction Hl; simpl; constructor; [by apply argmax_one_hot|done]. }
      congruence. }
    rewrite Hpl, count_true_zip_eqb_refl. unfold Qeq. simpl.
    assert (Z.pos (Pos.of_nat (length labels)) = Z.of_nat (length labels)) as ->.
    { destruct (length labels); [lia|]. simpl. lia. }
    lia.
Qed.

Lemma accuracy_rank1_fraction_witness :
  exists predicted q,
    mapM argmax [[0; 1]; [1; 0]; [1; 0]]%Q = Ok predicted /\
    q = (Z.of_nat (count_true (zip_with Z.eqb predicted [1; 0; 1]%Z))
         # Pos.of_nat (length [1; 0; 1]%Z)) /\
    accuracy [[0; 1]; [1; 0]; [1; 0]]%Q [1; 0; 1]%Z = Ok (Fin q) /\
    (0 <= q)%Q /\ (q <= 1)%Q /\
    (Forall2 (fun p l => p ≠ l) predicted [1; 0; 1]%Z -> q == 0) /\
    (forall classes,
       Forall (fun l => (0 <= l < Z.of_nat classes)%Z) [1; 0; 1]%Z ->
       [[0; 1]; [1; 0]; [1; 0]]%Q = map (one_hot classes) [1; 0; 1]%Z ->
       q == 1).
Proof.
  apply (accuracy_rank1_fraction [[0; 1]; [1; 0]; [1; 0]]%Q [1; 0; 1]%Z).
  - done.
  - reflexivity.
  - repeat constructor; done.
Defined.

(** C6, as stated, fails: for labels of shape (1, 2) and scores of shape
    (1, 2, 2) that predict both labels, the two matches are divided by
    [labels.shape[0]] = 1, not by the two label positions, and the value 2
    is outside [0, 1]; and for no labels at all the value is 0/0. *)
Lemma accuracy_not_a_fraction :
  ~ (exists q, accuracy_rank2 [[[1; 0]; [1; 0]]]%Q [[0; 0]]%Z = Ok (Fin q) /\ (q <= 1)%Q) /\
  ~ (exists q, accuracy [] [] = Ok (Fin q)).
Proof.
  split.
  - intros (q & Hq & Hle). vm_compute in Hq. injection Hq as <-.
    unfold Qle in Hle. simpl in Hle. lia.
  - intros (q & Hq). by vm_compute in Hq.
Qed.

(** *** accuracy_ignore_pad *)

Lemma slice_fill_lookup (a b : nat) (v : Q) (o : list (list Q)) (r : nat) :
  slice_fill a b v o !! r =
    (fun row => if ((a <=? r) && (r <? b))%nat then map (fun _ => v) row else row)
      <$> o !! r.
Proof. unfold slice_fill. by rewrite list_lookup_imap. Qed.

(** Which rows the loop of [accuracy_ignore_pad] overwrites: row [r] is
    filled with the pad index exactly when the k-th position of the end
    token and the k-th multiple of [seq_len] enclose it, for some k. *)
Lemma masked_output_lookup (target : list Z) (pad_index eos_index : Z)
    (stops : list nat) (o : list (list Q)) (r : nat) :
  masked_output target pad_index eos_index stops o !! r =
    (fun row =>
       if existsb (fun p : nat * nat => (S p.1 <=? r) && (r <? p.2))%nat
                  (zip (start_indices target eos_index) stops)
       then map (fun _ => inject_Z pad_index) row else row) <$> o !! r.
Proof.
  unfold masked_output.
  generalize (zip (start_indices target eos_index) stops) as pairs.
  intros pairs. revert o. induction pairs as [|p pairs IH]; intros o.
  - simpl. by destruct (o !! r).
  - cbn [foldl existsb]. rewrite IH, slice_fill_lookup.
    destruct (o !! r) as [row|]; [|done]. cbn [fmap option_fmap option_map]. f_equal.
    destruct ((S p.1 <=? r) && (r <? p.2))%nat; cbn [orb]; [|done].
    rewrite map_map. by destruct (existsb _ _).
Qed.

Lemma nonzero_eq_from_elem (k : nat) (target : list Z) (eos_index : Z) (p : nat) :
  p ∈ nonzero_eq_from k target eos_index <->
  exists j, p = (k + j)%nat /\ target !! j = Some eos_index.
Proof.
  revert k. induction target as [|v target IH]; intros k; simpl.
  - split; [by inversion 1|by intros (j & _ & ?)].
  - assert (Htail : p ∈ nonzero_eq_from (S k) target eos_index <->
                    exists j, p = (k + S j)%nat /\ target !! j = Some eos_index).
    { rewrite IH. by setoid_rewrite Nat.add_succ_r. }
    destruct (Z.eqb_spec v eos_index) as [->|Hne].
    + rewrite elem_of_cons, Htail. split.
      * intros [->|(j & -> & Hj)]; [exists 0%nat|exists (S j)]; split; try done; lia.
      * intros ([|j] & -> & Hj); [left; lia|right; by exists j].
    + rewrite Htail. split.
      * intros (j & -> & Hj). by exists (S j).
      * intros ([|j] & -> & Hj); [simpl in Hj; congruence|by exists j].
Qed.

(** [start_indices] holds the positions of the end token, and only them. *)
Lemma start_indices_elem (target : list Z) (eos_index : Z) (p : nat) :
  p ∈ start_indices target eos_index <-> target !! p = Some eos_index.
Proof.
  unfold start_indices. rewrite nonzero_eq_from_elem. split.
  - by intros (j & -> & Hj).
  - intros Hp. by exists p.
Qed.

Lemma end_indices_lookup (seq_len n : nat) (stops : list nat) (j s : nat) :
  end_indices seq_len n = Ok stops ->
  stops !! j = Some s <-> (j < n / seq_len)%nat /\ s = (S j * seq_len)%nat.
Proof.
  unfold end_indices. destruct seq_len as [|m]; [done|]. intros [= <-].
  rewrite list_lookup_fmap_Some. split.
  - intros (k & -> & Hk). apply lookup_seq in Hk as [-> Hlt]. done.
  - intros [Hlt ->]. exists j. split; [done|]. by apply lookup_seq.
Qed.

(** When the labels are whole blocks of [seq_len] positions and the j-th
    end token lies in the j-th block, for every j, the loop does what its
    docstring says: in block [k], the rows after the end token of the block
    are filled with the pad index and the other rows are left alone. *)
Lemma masked_output_one_end_per_block (target : list Z) (pad_index eos_index : Z)
    (seq_len blocks : nat) (stops : list nat) (o : list (list Q))
    (k r : nat) (row : list Q) :
  end_indices seq_len (length target) = Ok stops ->
  length target = (blocks * seq_len)%nat ->
  (forall j p, start_indices target eos_index !! j = Some p ->
               (j * seq_len <= p < S j * seq_len)%nat) ->
  (k * seq_len <= r < S k * seq_len)%nat ->
  o !! r = Some row ->
  ((exists p, start_indices target eos_index !! k = Some p /\ (p < r)%nat) ->
   masked_output target pad_index eos_index stops o !! r =
     Some (map (fun _ => inject_Z pad_index) row)) /\
  ((forall p, start_indices target eos_index !! k = Some p -> (r <= p)%nat) ->
   masked_output target pad_index eos_index stops o !! r = Some row).
Proof.
  intros Hstops Hlen Hblocks Hr Hrow.
  assert (Hseq : (0 < seq_len)%nat) by (destruct seq_len; [done|lia]).
  rewrite masked_output_lookup, Hrow. cbn [fmap option_fmap option_map].
  set (covers := existsb _ _).
  assert (Hcov : covers = true <->
                 exists p, start_indices target eos_index !! k = Some p /\ (p < r)%nat).
  { subst covers. rewrite existsb_exists. split.
    - intros ([p s] & Hin & Hps). cbn [fst snd] in Hps.
      apply list_elem_of_In, list_elem_of_lookup in Hin as [j Hj].
      apply lookup_zip_with_Some in Hj as (p' & s' & [= <- <-] & Hp & Hs).
      apply (end_indices_lookup _ _ _ _ _ Hstops) in Hs as [_ ->].
      apply andb_true_iff in Hps as [Hlo Hhi].
      apply Nat.leb_le in Hlo. apply Nat.ltb_lt in Hhi.
      pose proof (Hblocks j p Hp) as Hjp.
      assert (j = k) as -> by nia. exists p. split; [done|lia].
    - intros (p & Hp & Hlt). exists (p, (S k * seq_len)%nat). split.
      + apply list_elem_of_In, list_elem_of_lookup. exists k.
        apply lookup_zip_with_Some. exists p, (S k * seq_len)%nat.
        split; [done|]. split; [done|].
        apply (end_indices_lookup _ _ _ _ _ Hstops). split; [|done].
        assert (Hpn : (p < length target)%nat).
        { apply lookup_lt_is_Some. exists eos_index.
          apply start_indices_elem, list_elem_of_lookup. by exists k. }
        rewrite Hlen in *. rewrite Nat.div_mul by lia.
        pose proof (Hblocks k p Hp). nia.
      + cbn [fst snd]. apply andb_true_iff.
        split; [apply Nat.leb_le|apply Nat.ltb_lt]; lia. }
  split.
  - intros Hex. apply Hcov in Hex. by rewrite Hex.
  - intros Hnone. destruct covers; [|done].
    destruct Hcov as [Hcov _]. destruct (Hcov eq_refl) as (p & Hp & Hlt).
    specialize (Hnone p Hp). lia.
Qed.

Lemma foldl_mask_step (output : loc) (pad_index : Z) (pairs : list (nat * nat))
    (σ : store) (o : list (list Q)) :
  σ !! output = Some (Float2 o) ->
  foldl (mask_step output pad_index) σ pairs =
    <[output := Float2
        (foldl (fun o p => slice_fill (S p.1) p.2 (inject_Z pad_index) o) o pairs)]> σ.
Proof.
  revert σ o. induction pairs as [|p pairs IH]; intros σ o Hσ; simpl.
  - by rewrite insert_id.
  - unfold mask_step at 2. rewrite Hσ.
    erewrite IH; [|by rewrite lookup_insert_eq].
    by rewrite insert_insert_eq.
Qed.

Lemma accuracy_ignore_pad_store (output target : loc) (pad_index eos_index : Z)
    (seq_len : nat) (σ : store) (o : list (list Q)) (t : list Z) :
  σ !! output = Some (Float2 o) ->
  σ !! target = Some (Long1 t) ->
  (accuracy_ignore_pad output target pad_index eos_index seq_len σ).2 =
    match end_indices seq_len (length t) with
    | Ok stops =>
        <[output := Float2 (masked_output t pad_index eos_index stops o)]> σ
    | Raise _ => σ
    end.
Proof.
  intros Ho Ht. unfold accuracy_ignore_pad. rewrite Ho, Ht.
  destruct (end_indices seq_len (length t)) as [stops|e]; [|done].
  rewrite (foldl_mask_step _ _ _ _ o Ho), lookup_insert_eq. done.
Qed.

(** C5: the loop pairs the k-th position of the end token with the end of
    the k-th block, not with the end of the block the position lies in.
    With blocks of two positions: for the labels [5; 6; 81; 7] the end
    token at position 2 is paired with the stop 2, and row 3, which follows
    it in its block, is not overwritten; for the labels [81; 81; 5; 6] the
    second end token is paired with the stop 4, and rows 2 and 3, a block
    without end token, are overwritten. *)
Theorem accuracy_ignore_pad_pairs_by_rank :
  (accuracy_ignore_pad 1%positive 2%positive 79 81 2 (example_store [5; 6; 81; 7]%Z)).2 !! 1%positive =
    Some (Float2 [[0; 1]; [0; 1]; [0; 1]; [0; 1]]%Q) /\
  (accuracy_ignore_pad 1%positive 2%positive 79 81 2 (example_store [81; 81; 5; 6]%Z)).2 !! 1%positive =
    Some (Float2 [[0; 1]; [79; 79]; [79; 79]; [79; 79]]%Q).
Proof. split; by vm_compute. Qed.

Example accuracy_ignore_pad_writes_output :
  (accuracy_ignore_pad 1%positive 2%positive 79 81 2
     (example_store [81; 5; 81; 6]%Z)).2 !! 1%positive =
    Some (Float2 [[0; 1]; [79; 79]; [0; 1]; [79; 79]]%Q).
Proof. by vm_compute. Qed.

Lemma masked_output_imap (target : list Z) (pad_index eos_index : Z)
    (stops : list nat) (o : list (list Q)) :
  masked_output target pad_index eos_index stops o =
    imap (fun r row =>
            if existsb (fun p : nat * nat => (S p.1 <=? r) && (r <? p.2))%nat
                       (zip (start_indices target eos_index) stops)
            then map (fun _ => inject_Z pad_index) row else row) o.
Proof.
  apply list_eq. intros r. by rewrite masked_output_lookup, list_lookup_imap.
Qed.

(** C10: for scores of shape (N, C) and labels of shape (N,),
    [accuracy_ignore_pad] writes into the tensor that the caller's
    [output] refers to, and the write is still there when the call is
    over: row [r] holds the pad index in every column when the k-th
    position of the end token and the k-th multiple of [seq_len] enclose
    it for some k, and is as before otherwise; the tensor that [target]
    refers to is as before. For scores of shape (B, S, C) and labels of
    shape (B, S) the call leaves the whole store as it was. [accuracy]
    leaves the store as it was, and [cer] and [wer] leave in it what
    [greedy_decoder] leaves: the labels as they were, when
    [greedy_decoder] does not write to them. *)
Theorem metrics_frame
    (greedy_decoder : list (list (list Q)) -> list (list Z) -> list nat ->
                      list (list pystr) * list (list pystr))
    (greedy_decoder_writes : loc -> loc -> store -> store)
    (set_order : list pystr -> list pystr)
    (output target : loc) (pad_index eos_index : Z) (seq_len : nat) (σ : store) :
  (forall outputs σ0, greedy_decoder_writes outputs target σ0 !! target = σ0 !! target) ->
  let σ' := (accuracy_ignore_pad output target pad_index eos_index seq_len σ).2 in
  (forall o t,
     σ !! output = Some (Float2 o) ->
     σ !! target = Some (Long1 t) ->
     σ' = <[output := Float2
              (imap (fun r row =>
                       if existsb (fun p : nat * nat => (S p.1 <=? r) && (r <? p.2))%nat
                            (zip (start_indices t eos_index)
                                 (map (fun k => (S k * seq_len)%nat)
                                      (seq 0 (length t / seq_len))))
                       then map (fun _ => inject_Z pad_index) row
                       else row) o)]> σ /\
     σ' !! target = Some (Long1 t)) /\
  (forall o t,
     σ !! output = Some (Float3 o) ->
     σ !! target = Some (Long2 t) ->
     σ' = σ) /\
  (forall outputs value σ1,
     call_accuracy outputs target σ = Some (value, σ1) -> σ1 = σ) /\
  (forall outputs value σ1,
     call_cer greedy_decoder greedy_decoder_writes outputs target σ = Some (value, σ1) ->
     σ1 !! target = σ !! target) /\
  (forall outputs value σ1,
     call_wer greedy_decoder set_order greedy_decoder_writes outputs target σ
       = Some (value, σ1) ->
     σ1 !! target = σ !! target).
Proof.
  intros Hdecoder σ'. subst σ'. split; [|split; [|split; [|split]]].
  - intros o t Ho Ht.
    assert (Hne : target ≠ output) by (intros ->; congruence).
    rewrite (accuracy_ignore_pad_store _ _ _ _ _ _ o t) by done.
    unfold end_indices. destruct seq_len as [|n].
    + cbn [Nat.div seq map]. rewrite zip_with_nil_r. cbn [existsb].
      split; [|done]. rewrite insert_id; [done|]. rewrite Ho. do 2 f_equal.
      apply list_eq. intros r. rewrite list_lookup_imap. by destruct (o !! r).
    + rewrite masked_output_imap. split; [done|]. by rewrite lookup_insert_ne.
  - intros o t Ho Ht. unfold accuracy_ignore_pad. rewrite Ht, Ho.
    destruct (end_indices seq_len (length t)) as [stops|e]; [|done].
    by destruct (zip _ stops).
  - intros outputs value σ1. unfold call_accuracy.
    repeat case_match; congruence.
  - intros outputs value σ1. unfold call_cer.
    repeat case_match; try done. intros [= _ <-]. by rewrite Hdecoder.
  - intros outputs value σ1. unfold call_wer.
    repeat case_match; try done. intros [= _ <-]. by rewrite Hdecoder.
Qed.

(** The example: four rows of scores, the labels [81; 5; 81; 6] in blocks
    of two. Rows 1 and 3 of the caller's tensor hold the pad index after
    the call, the labels are as before; a decoder that writes nothing. *)
Lemma metrics_frame_witness :
  let σ := example_store [81; 5; 81; 6]%Z in
  let σ' := (accuracy_ignore_pad 1%positive 2%positive 79 81 2 σ).2 in
  σ' !! 1%positive = Some (Float2 [[0; 1]; [79; 79]; [0; 1]; [79; 79]]%Q) /\
  σ' !! 2%positive = Some (Long1 [81; 5; 81; 6]%Z) /\
  (accuracy_ignore_pad 1%positive 2%positive 79 81 1
     (example_store_batched [[5; 81]]%Z)).2 = example_store_batched [[5; 81]]%Z /\
  (forall value σ1,
     call_cer example_decoder (fun _ _ σ0 => σ0) 1%positive 2%positive
              (example_store_batched [[5; 81]]%Z) = Some (value, σ1) ->
     σ1 !! 2%positive = Some (Long2 [[5; 81]]%Z)).
Proof.
  intros σ σ'.
  destruct (metrics_frame example_decoder (fun _ _ σ0 => σ0) remove_dups
              1%positive 2%positive 79 81 2 σ) as (Hflat & _); [done|].
  destruct (Hflat [[0; 1]; [0; 1]; [0; 1]; [0; 1]]%Q [81; 5; 81; 6]%Z)
    as [Hσ' Htarget]; [reflexivity|reflexivity|].
  destruct (metrics_frame example_decoder (fun _ _ σ0 => σ0) remove_dups
              1%positive 2%positive 79 81 1 (example_store_batched [[5; 81]]%Z))
    as (_ & Hbatched & _ & Hcer & _); [done|].
  split; [|split; [done|split]].
  - fold σ' in Hσ'. rewrite Hσ', lookup_insert_eq. reflexivity.
  - by apply (Hbatched [[[0; 1]; [0; 1]]]%Q [[5; 81]]%Z).
  - intros value σ1 Hcall. etrans; [apply (Hcer _ _ _ Hcall)|reflexivity].
Defined.

(** *** cer *)

Lemma foldl_add_sum {X : Type} (f : X -> nat) (l : list X) (n : nat) :
  foldl (fun acc x => (acc + f x)%nat) n l = (n + sum_list (map f l))%nat.
Proof.
  revert n. induction l as [|x l IH]; intros n; simpl; [lia|]. rewrite IH. lia.
Qed.

Lemma sum_list_0 (l : list nat) : sum_list l = 0%nat <-> Forall (fun n => n = 0%nat) l.
Proof.
  induction l as [|n l IH]; simpl.
  - split; [constructor|done].
  - rewrite Forall_cons, <- IH. lia.
Qed.

Lemma cer_decoded_eq (decoded_predictions decoded_targets : list (list pystr)) :
  decoded_predictions ≠ [] ->
  cer_decoded decoded_predictions decoded_targets =
    Ok (Z.of_nat (sum_list (map (fun pt => cer_pair pt.1 pt.2)
                                (zip decoded_predictions decoded_targets)))
        # Pos.of_nat (length decoded_predictions)).
Proof.
  intros Hne. unfold cer_decoded. rewrite foldl_add_sum. simpl.
  unfold int_div. by destruct decoded_predictions.
Qed.

(** [remove_spaces] keeps the characters other than the space, in their
    order. *)
Lemma filter_not_space (s : list ascii) :
  filter (fun c => c ≠ " "%char) s =
    List.filter (fun c => negb (Ascii.eqb c " "%char)) s.
Proof.
  induction s as [|c s IH]; [done|].
  rewrite filter_cons, IH. cbn [List.filter].
  destruct (Ascii.eqb_spec c " "%char) as [Hc|Hc]; case_decide; simpl; done.
Qed.

Lemma remove_spaces_filter (s : pystr) :
  remove_spaces s = List.filter (fun c => negb (Ascii.eqb c " "%char)) s.
Proof. apply filter_not_space. Qed.

Lemma cer_pair_filter (prediction target : list pystr) :
  cer_pair prediction target =
    levenshtein (List.filter (fun c => negb (Ascii.eqb c " "%char)) (concat prediction))
                (List.filter (fun c => negb (Ascii.eqb c " "%char)) (concat target)).
Proof. unfold cer_pair, join. by rewrite !remove_spaces_filter. Qed.

(** C7: [cer] is the sum, over the pairs of decoded predictions and
    targets, of the edit distance between the two strings, each the
    concatenation of the symbols with every space character left out,
    divided by the number of decoded predictions; it is 0 exactly when
    the two strings of every pair are the same; and a pair whose strings
    differ by the substitution of one character adds an edit distance of
    1 to the sum. *)
Theorem cer_mean_edit_distance
    (greedy_decoder : list (list (list Q)) -> list (list Z) -> list nat ->
                      list (list pystr) * list (list pystr))
    (outputs : list (list (list Q))) (targets : list (list Z))
    (decoded_predictions decoded_targets : list (list pystr)) :
  greedy_decoder outputs targets (target_lengths outputs targets) =
    (decoded_predictions, decoded_targets) ->
  decoded_predictions ≠ [] ->
  let stripped := fun symbols : list pystr =>
    List.filter (fun c => negb (Ascii.eqb c " "%char)) (concat symbols) in
  exists q,
    cer greedy_decoder outputs targets = Ok q /\
    q = (Z.of_nat
           (sum_list
              (map (fun pt => levenshtein (stripped pt.1) (stripped pt.2))
                   (zip decoded_predictions decoded_targets)))
         # Pos.of_nat (length decoded_predictions)) /\
    (q == 0 <->
     Forall (fun pt => stripped pt.1 = stripped pt.2)
            (zip decoded_predictions decoded_targets)) /\
    (forall pt u v x y,
       pt ∈ zip decoded_predictions decoded_targets ->
       x ≠ y ->
       stripped pt.1 = u ++ x :: v ->
       stripped pt.2 = u ++ y :: v ->
       levenshtein (stripped pt.1) (stripped pt.2) = 1%nat).
Proof.
  intros Hdec Hne stripped. eexists. split; [|split; [reflexivity|split]].
  - unfold cer. rewrite Hdec. rewrite cer_decoded_eq by done.
    do 4 f_equal. apply map_ext. intros [p t]. apply cer_pair_filter.
  - set (ds := map _ (zip decoded_predictions decoded_targets)).
    assert (Hq : (Z.of_nat (sum_list ds) # Pos.of_nat (length decoded_predictions)) == 0
                 <-> sum_list ds = 0%nat) by (unfold Qeq; simpl; lia).
    rewrite Hq, sum_list_0. subst ds. rewrite Forall_map.
    apply Forall_iff. intros [p t]. simpl. apply levenshtein_0_iff.
  - intros pt u v x y _ Hxy Hp Ht.
    rewrite Hp, Ht. by apply levenshtein_substitution.
Qed.

(** The example: ["ab"] against ["a b"] are the same once the space is
    left out, ["c d"] against ["cx"] differ by one substitution, so the
    rate of the two pairs is 1/2. *)
Lemma cer_mean_edit_distance_witness :
  example_decoder [] [] (target_lengths [] []) =
    ([[str "ab"]; [str "c d"]], [[str "a b"]; [str "cx"]]) /\
  [[str "ab"]; [str "c d"]] ≠ [] /\
  cer example_decoder [] [] = Ok (1 # 2).
Proof.
  split; [reflexivity|]. split; [done|].
  destruct (cer_mean_edit_distance example_decoder [] []
              [[str "ab"]; [str "c d"]] [[str "a b"]; [str "cx"]])
    as (q & Hcer & Hq & _); [reflexivity|done|].
  rewrite Hcer. f_equal. rewrite Hq. reflexivity.
Defined.

(** *** wer *)

Lemma dict_get_zip_seq (b : list pystr) (i : nat) (w : pystr) :
  w ∈ b ->
  exists k,
    dict_get (zip b (seq i (length b))) w = Ok k /\
    (i <= k < i + length b)%nat /\ b !! (k - i)%nat = Some w.
Proof.
  revert i. induction b as [|w' b IH]; intros i Hw; [by inversion Hw|].
  simpl. destruct (decide (w' = w)) as [->|Hne].
  - exists i. split; [done|]. split; [lia|]. by rewrite Nat.sub_diag.
  - apply elem_of_cons in Hw as [->|Hw]; [done|].
    destruct (IH (S i) Hw) as (k & Hk & Hrange & Hlook).
    exists k. split; [done|]. split; [lia|].
    replace (k - i)%nat with (S (k - S i)) by lia. done.
Qed.

Lemma chr_Ok (k : nat) : (N.of_nat k < 1114112)%N -> chr k = Ok k.
Proof. intros Hk. unfold chr. apply N.ltb_lt in Hk. by rewrite Hk. Qed.

(** The surrogate characters of a sequence of words: one code point per
    word, the position of the word in the enumeration [b]. *)
Lemma word_chars (b ws : list pystr) :
  (N.of_nat (length b) <= 1114112)%N ->
  Forall (fun w => w ∈ b) ws ->
  exists ks,
    mapM (fun w => k ← dict_get (zip b (seq 0 (length b))) w; chr k) ws = Ok ks /\
    Forall2 (fun w k => b !! k = Some w) ws ks.
Proof.
  intros Hlen Hws. induction Hws as [|w ws Hw _ (ks & Hks & Hrel)].
  - exists []. split; [done|constructor].
  - destruct (dict_get_zip_seq b 0 w Hw) as (k & Hk & Hrange & Hlook).
    exists (k :: ks). split.
    + apply mapM_Ok. constructor; [|by apply mapM_Ok].
      rewrite Hk. simpl. apply chr_Ok. lia.
    + constructor; [|done]. by rewrite Nat.sub_0_r in Hlook.
Qed.

(** [str.split()] on a text laid out from words. *)
Lemma split_from_word (w cur s : pystr) :
  Forall (fun c => is_space c = false) w ->
  split_from cur (w ++ s) = split_from (rev w ++ cur) s.
Proof.
  intros Hw. revert cur. induction Hw as [|c w Hc _ IH]; intros cur; [done|].
  simpl. rewrite Hc, IH. by rewrite <- app_assoc.
Qed.

Lemma split_from_whitespace (gap s : pystr) :
  whitespace gap -> split_from [] (gap ++ s) = split_from [] s.
Proof.
  intros Hgap. induction Hgap as [|c gap Hc _ IH]; [done|].
  simpl. by rewrite Hc.
Qed.

Lemma split_from_space (cur s : pystr) (c : ascii) :
  cur ≠ [] -> is_space c = true ->
  split_from cur (c :: s) = rev cur :: split_from [] s.
Proof. intros Hcur Hc. simpl. rewrite Hc. by destruct cur. Qed.

Lemma rev_word (w : pystr) : is_word w -> rev w ≠ [].
Proof.
  intros [Hne _] Hrev. apply Hne.
  rewrite <- (rev_involutive w), Hrev. done.
Qed.

Lemma split_from_items (items : list (pystr * pystr)) (trail prev : pystr) :
  Forall (fun gw => whitespace gw.1 /\ is_word gw.2) items ->
  Forall (fun gw => gw.1 ≠ []) items ->
  whitespace trail ->
  is_word prev ->
  split_from (rev prev) (layout items trail) = prev :: items.*2.
Proof.
  unfold layout. intros Hitems Hgaps Htrail. revert prev.
  induction items as [|[gap w] items IH]; intros prev Hprev.
  - simpl. destruct trail as [|c trail].
    + simpl. pose proof (rev_word prev Hprev) as Hrev.
      destruct (rev prev) eqn:E; [done|]. by rewrite <- E, rev_involutive.
    + inversion Htrail as [|? ? Hc Htrail']; subst.
      rewrite split_from_space by (by apply rev_word || done).
      rewrite rev_involutive. f_equal.
      rewrite <- (app_nil_r trail). by rewrite split_from_whitespace.
  - apply Forall_cons in Hitems as [[Hgap Hw] Hitems].
    apply Forall_cons in Hgaps as [Hgap_ne Hgaps]. simpl in *.
    destruct gap as [|c gap]; [done|].
    inversion Hgap as [|? ? Hc Hgap']; subst.
    rewrite <- !app_assoc. cbn [app].
    rewrite split_from_space by (by apply rev_word || done).
    rewrite rev_involutive. f_equal.
    rewrite split_from_whitespace by done.
    rewrite split_from_word by apply Hw. rewrite app_nil_r.
    by apply IH.
Qed.

Lemma split_layout (items : list (pystr * pystr)) (trail : pystr) :
  well_spaced items trail -> split (layout items trail) = items.*2.
Proof.
  unfold well_spaced, split. intros (Hitems & Hgaps & Htrail).
  destruct items as [|[gap w] items].
  - unfold layout. simpl. rewrite <- (app_nil_r trail).
    by rewrite split_from_whitespace.
  - apply Forall_cons in Hitems as [[Hgap Hw] Hitems]. simpl in *.
    unfold layout. cbn [map concat fst snd]. rewrite <- !app_assoc.
    rewrite split_from_whitespace by done.
    rewrite split_from_word by apply Hw. rewrite app_nil_r.
    by apply split_from_items.
Qed.


Section Wer.

Variable set_order : list pystr -> list pystr.
Hypothesis set_order_NoDup : forall ws, NoDup (set_order ws).
Hypothesis set_order_elem : forall ws w, w ∈ set_order ws <-> w ∈ ws.

(** The distance between the surrogate strings is the distance between
    the two sequences of words. *)
Lemma wer_pair_word_distance (prediction target : list pystr) :
  (N.of_nat (length (set_order (split (join prediction) ++ split (join target))))
     <= 1114112)%N ->
  wer_pair set_order prediction target =
    Ok (levenshtein (split (join prediction)) (split (join target))).
Proof.
  intros Hlen. unfold wer_pair.
  set (b := set_order (split (join prediction) ++ split (join target))) in *.
  destruct (word_chars b (split (join prediction)) Hlen) as (w1 & Hw1 & Hr1).
  { apply Forall_forall. intros w Hw. apply set_order_elem, elem_of_app. by left. }
  destruct (word_chars b (split (join target)) Hlen) as (w2 & Hw2 & Hr2).
  { apply Forall_forall. intros w Hw. apply set_order_elem, elem_of_app. by right. }
  rewrite Hw1. simpl. rewrite Hw2. simpl. f_equal.
  apply (levenshtein_rel (fun w k => b !! k = Some w)); [|done|done].
  intros w w' k k' Hk Hk'. split.
  - intros ->. by eapply NoDup_lookup.
  - intros ->. congruence.
Qed.

Lemma wer_loop_app_inv (l1 l2 : list (list pystr * list pystr)) (n0 n : nat) :
  wer_loop set_order n0 (l1 ++ l2) = Ok n ->
  exists n1, wer_loop set_order n0 l1 = Ok n1 /\ wer_loop set_order n1 l2 = Ok n.
Proof.
  revert n0. induction l1 as [|[p t] l1 IH]; intros n0; simpl.
  - intros Hloop. by exists n0.
  - destruct (wer_pair set_order p t) as [d|e]; simpl; [|done]. apply IH.
Qed.

Lemma wer_loop_app (l1 l2 : list (list pystr * list pystr)) (n0 n1 : nat) :
  wer_loop set_order n0 l1 = Ok n1 ->
  wer_loop set_order n0 (l1 ++ l2) = wer_loop set_order n1 l2.
Proof.
  revert n0. induction l1 as [|[p t] l1 IH]; intros n0; simpl.
  - by intros [= ->].
  - destruct (wer_pair set_order p t) as [d|e]; simpl; [|done]. apply IH.
Qed.

Lemma wer_loop_shift (pairs : list (list pystr * list pystr)) (n0 n k : nat) :
  wer_loop set_order n0 pairs = Ok n ->
  wer_loop set_order (n0 + k) pairs = Ok (n + k)%nat.
Proof.
  revert n0. induction pairs as [|[p t] pairs IH]; intros n0; simpl.
  - by intros [= ->].
  - destruct (wer_pair set_order p t) as [d|e]; simpl; [|done].
    intros Hloop. apply IH in Hloop.
    by replace (n0 + k + d)%nat with (n0 + d + k)%nat by lia.
Qed.

(** The enumeration of a set of words has as many words as the list
    without its repetitions. *)
Lemma length_set_order (ws : list pystr) :
  length (set_order ws) = length (remove_dups ws).
Proof.
  apply Permutation_length, NoDup_Permutation.
  - apply set_order_NoDup.
  - apply NoDup_remove_dups.
  - intros w. by rewrite set_order_elem, elem_of_remove_dups.
Qed.

(** With more distinct words than there are code points, [chr] refuses
    the index of one of them. *)
Lemma word_chars_cases (b ws : list pystr) :
  Forall (fun w => w ∈ b) ws ->
  mapM (fun w => k ← dict_get (zip b (seq 0 (length b))) w; chr k) ws
    = Raise ValueError \/
  exists ks,
    mapM (fun w => k ← dict_get (zip b (seq 0 (length b))) w; chr k) ws = Ok ks /\
    Forall2 (fun w k => b !! k = Some w /\ (N.of_nat k < 1114112)%N) ws ks.
Proof.
  intros Hws. induction Hws as [|w ws Hw _ IH].
  - right. exists []. split; [done|constructor].
  - destruct (dict_get_zip_seq b 0 w Hw) as (k & Hk & _ & Hlook).
    rewrite Nat.sub_0_r in Hlook.
    cbn [mapM]. rewrite Hk. cbn [mbind result_bind rbind].
    destruct (N.ltb_spec (N.of_nat k) 1114112) as [Hlt|Hge].
    + rewrite (chr_Ok k Hlt). cbn [mbind result_bind rbind].
      destruct IH as [->|(ks & -> & Hks)]; [by left|].
      right. exists (k :: ks). split; [done|]. by constructor.
    + assert (Hchr : chr k = Raise ValueError).
      { unfold chr. apply N.ltb_ge in Hge. by rewrite Hge. }
      rewrite Hchr. by left.
Qed.

Lemma wer_pair_too_many_words (prediction target : list pystr) :
  (1114112 < N.of_nat (length (set_order (split (join prediction)
                                          ++ split (join target)))))%N ->
  wer_pair set_order prediction target = Raise ValueError.
Proof.
  intros Hlen. unfold wer_pair.
  set (b := set_order (split (join prediction) ++ split (join target))) in *.
  destruct (word_chars_cases b (split (join prediction))) as [->|(ks1 & -> & Hks1)];
    [|done|].
  { apply Forall_forall. intros w Hw. apply set_order_elem, elem_of_app. by left. }
  cbn [mbind result_bind rbind].
  destruct (word_chars_cases b (split (join target))) as [->|(ks2 & -> & Hks2)];
    [|done|].
  { apply Forall_forall. intros w Hw. apply set_order_elem, elem_of_app. by right. }
  exfalso.
  destruct (lookup_lt_is_Some_2 b (N.to_nat 1114112)) as [w0 Hw0]; [lia|].
  assert (Hin : w0 ∈ split (join prediction) ++ split (join target)).
  { apply set_order_elem. by eapply list_elem_of_lookup_2. }
  assert (Hsmall : forall ws ks,
            Forall2 (fun w k => b !! k = Some w /\ (N.of_nat k < 1114112)%N) ws ks ->
            w0 ∈ ws -> False).
  { intros ws ks Hks Hw. apply list_elem_of_lookup in Hw as [i Hi].
    destruct (Forall2_lookup_l _ _ _ _ _ Hks Hi) as (k & _ & Hk & Hlt).
    assert (k = N.to_nat 1114112) by (eapply NoDup_lookup; [apply set_order_NoDup|done..]).
    lia. }
  apply elem_of_app in Hin as [Hin|Hin]; eauto.
Qed.

End Wer.

(** A text of words that each end in one space. *)
Lemma split_spaced_words (words : list pystr) :
  Forall is_word words ->
  split (join ((fun w => w ++ str " ") <$> words)) = words.
Proof.
  unfold split, join. intros Hwords.
  induction Hwords as [|w words Hw _ IH]; [done|].
  cbn [fmap list_fmap concat]. rewrite <- !app_assoc.
  rewrite split_from_word by apply Hw. rewrite app_nil_r.
  change (str " " ++ ?s) with (" "%char :: s).
  rewrite split_from_space by (by apply rev_word || done).
  rewrite rev_involutive. f_equal. apply IH.
Qed.

(** Sentences of [n + 1] words that differ in the last word only: with
    [n + 2] distinct words between them, more than [chr] has code points,
    [wer] raises. *)
Lemma wer_long_sentences (n : nat) :
  (1114112 <= N.of_nat n)%N ->
  let ws := (fun i => replicate (S i) "a"%char) <$> seq 0 n in
  let prediction := (fun w => w ++ str " ") <$> (ws ++ [str "b"]) in
  let target := (fun w => w ++ str " ") <$> (ws ++ [str "c"]) in
  split (join prediction) = ws ++ [str "b"] /\
  split (join target) = ws ++ [str "c"] /\
  wer (fun _ _ _ => ([prediction], [target])) remove_dups [] [] = Raise ValueError.
Proof.
  intros Hn ws prediction target.
  assert (Hws : Forall is_word ws).
  { apply Forall_fmap, Forall_forall. intros i _. split; [done|].
    apply Forall_replicate. done. }
  assert (Hp : split (join prediction) = ws ++ [str "b"]).
  { apply split_spaced_words, Forall_app. split; [done|].
    repeat constructor; done. }
  assert (Ht : split (join target) = ws ++ [str "c"]).
  { apply split_spaced_words, Forall_app. split; [done|].
    repeat constructor; done. }
  split; [done|]. split; [done|].
  unfold wer, wer_decoded. cbn [zip zip_with wer_loop].
  rewrite (wer_pair_too_many_words remove_dups); [done| | |].
  - intros l. apply NoDup_remove_dups.
  - intros l w. apply elem_of_remove_dups.
  - rewrite Hp, Ht.
    assert (Hnodup : NoDup (ws ++ [str "b"; str "c"])).
    { apply NoDup_app. split; [|split].
      - apply NoDup_fmap_2_strong; [|apply NoDup_seq].
        intros i j _ _ Hij. apply (f_equal length) in Hij.
        rewrite !length_replicate in Hij. lia.
      - intros w Hw Hbc. apply list_elem_of_fmap in Hw as (i & -> & _).
        apply elem_of_cons in Hbc as [Hb|Hbc]; [discriminate Hb|].
        apply elem_of_cons in Hbc as [Hc|Hbc]; [discriminate Hc|].
        by apply elem_of_nil in Hbc.
      - apply NoDup_cons. split; [|apply NoDup_singleton].
        intros Hbc. apply elem_of_cons in Hbc as [Hbc|Hbc]; [discriminate Hbc|].
        by apply elem_of_nil in Hbc. }
    assert (Hsub : ws ++ [str "b"; str "c"]
                   ⊆+ remove_dups ((ws ++ [str "b"]) ++ ws ++ [str "c"])).
    { apply NoDup_submseteq; [done|]. intros w Hw.
      apply elem_of_remove_dups. rewrite !elem_of_app in *.
      rewrite !elem_of_cons in *. tauto. }
    apply submseteq_length in Hsub.
    rewrite length_app in Hsub. unfold ws in Hsub at 1.
    rewrite length_fmap, length_seq in Hsub. cbn [length] in Hsub.
    unfold pystr in *. lia.
Qed.

(** C8, as amended: a pair of decoded sequences whose texts hold the same
    words but for one, [x] in the prediction where the target has [y], and
    no more than 1114112 different words, adds exactly 1 to the distance
    that [wer] sums, whatever the lengths of the words and the whitespace
    around them; and it adds it whatever the other pairs are: the result
    is the sum [rest] of the other pairs alone, plus 1, divided by the
    number of decoded predictions. [set_order] is any enumeration of the
    set of words without repetition. *)
Theorem wer_one_word_one_edit
    (greedy_decoder : list (list (list Q)) -> list (list Z) -> list nat ->
                      list (list pystr) * list (list pystr))
    (set_order : list pystr -> list pystr)
    (outputs : list (list (list Q))) (targets : list (list Z))
    (before_p after_p before_t after_t : list (list pystr))
    (prediction target : list pystr)
    (items_p items_t : list (pystr * pystr)) (trail_p trail_t : pystr)
    (u v : list pystr) (x y : pystr) (rest : nat) :
  (forall ws, NoDup (set_order ws)) ->
  (forall ws w, w ∈ set_order ws <-> w ∈ ws) ->
  greedy_decoder outputs targets (target_lengths outputs targets) =
    (before_p ++ prediction :: after_p, before_t ++ target :: after_t) ->
  length before_p = length before_t ->
  concat prediction = layout items_p trail_p ->
  well_spaced items_p trail_p ->
  concat target = layout items_t trail_t ->
  well_spaced items_t trail_t ->
  items_p.*2 = u ++ x :: v ->
  items_t.*2 = u ++ y :: v ->
  x ≠ y ->
  (N.of_nat (length (remove_dups (items_p.*2 ++ items_t.*2))) <= 1114112)%N ->
  wer_loop set_order 0 (zip (before_p ++ after_p) (before_t ++ after_t)) = Ok rest ->
  wer greedy_decoder set_order outputs targets =
    Ok (Z.of_nat (rest + 1) # Pos.of_nat (length before_p + 1 + length after_p)).
Proof.
  intros Hnodup Helem Hdec Hbefore Hp Hsp Ht Hst Hwp Hwt Hxy Hbound Hrest.
  assert (Hpair : wer_pair set_order prediction target = Ok 1%nat).
  { rewrite (wer_pair_word_distance set_order Hnodup Helem).
    - unfold join. rewrite Hp, Ht, !split_layout by done. rewrite Hwp, Hwt.
      f_equal. by apply levenshtein_substitution.
    - unfold join. rewrite Hp, Ht, !split_layout by done.
      by rewrite (length_set_order set_order Hnodup Helem). }
  unfold wer. rewrite Hdec. unfold wer_decoded.
  rewrite !zip_with_app in * by done.
  apply (wer_loop_app_inv set_order) in Hrest as (n1 & Hn1 & Hn2).
  rewrite (wer_loop_app set_order _ _ _ _ Hn1). cbn [zip_with wer_loop].
  rewrite Hpair. cbn [mbind result_bind rbind].
  rewrite (wer_loop_shift set_order _ _ _ 1 Hn2). cbn [mbind result_bind rbind].
  rewrite length_app. cbn [length]. unfold int_div.
  replace (length before_p + S (length after_p))%nat
    with (S (length before_p + length after_p)) by lia.
  do 2 f_equal. f_equal. lia.
Qed.

(** The example: ["the slow fox"] against ["the quick  fox"], cut into
    three symbols and with two spaces before the last word, and a second
    pair that differs in both of its two words: 1 + 2 over 2 pairs. *)
Lemma wer_one_word_one_edit_witness :
  wer (fun _ _ _ => ([[str "the slow fox"]; [str "a b"]],
                     [[str "the "; str "quick "; str " fox"]; [str "c d"]]))
      remove_dups [] [] = Ok (3 # 2).
Proof.
  apply (wer_one_word_one_edit
           (fun _ _ _ => ([[str "the slow fox"]; [str "a b"]],
                          [[str "the "; str "quick "; str " fox"]; [str "c d"]]))
           remove_dups [] []
           [] [[str "a b"]] [] [[str "c d"]]
           [str "the slow fox"] [str "the "; str "quick "; str " fox"]
           [([], str "the"); (str " ", str "slow"); (str " ", str "fox")] 
           [([], str "the"); (str " ", str "quick"); (str "  ", str "fox")]
           [] []
           [str "the"] [str "fox"] (str "slow") (str "quick") 2%nat).
  - intros ws. apply NoDup_remove_dups.
  - intros ws w. apply elem_of_remove_dups.
  - reflexivity.
  - reflexivity.
  - reflexivity.
  - unfold well_spaced, whitespace, is_word. repeat constructor; done.
  - reflexivity.
  - unfold well_spaced, whitespace, is_word. repeat constructor; done.
  - reflexivity.
  - reflexivity.
  - discriminate.
  - vm_compute. discriminate.
  - reflexivity.
Defined.

(** C8, as stated, fails: two sentences of 1114113 words that differ in
    their last word only hold 1114114 different words; [chr] refuses the
    index 1114112 and [wer] raises ValueError instead of counting a
    distance of 1. *)
Lemma wer_too_many_words :
  split (join (long_sentence (str "b"))) = many_words ++ [str "b"] /\
  split (join (long_sentence (str "c"))) = many_words ++ [str "c"] /\
  wer (fun _ _ _ => ([long_sentence (str "b")], [long_sentence (str "c")]))
      remove_dups [] [] = Raise ValueError.
Proof. apply (wer_long_sentences (N.to_nat 1114112)). lia. Qed.

(** *** No decoded sequence *)

(** C9, as amended: when the decoder returns no decoded prediction, [cer]
    and [wer] divide by [len(decoded_predictions)] = 0 and Python raises
    ZeroDivisionError; no test of the count comes before the division. *)
Theorem error_rates_zero_division
    (greedy_decoder : list (list (list Q)) -> list (list Z) -> list nat ->
                      list (list pystr) * list (list pystr))
    (set_order : list pystr -> list pystr)
    (outputs : list (list (list Q))) (targets : list (list Z))
    (decoded_targets : list (list pystr)) :
  greedy_decoder outputs targets (target_lengths outputs targets) =
    ([], decoded_targets) ->
  cer greedy_decoder outputs targets = Raise ZeroDivisionError /\
  wer greedy_decoder set_order outputs targets = Raise ZeroDivisionError.
Proof.
  intros Hdec. unfold cer, wer. by rewrite Hdec.
Qed.

Lemma error_rates_zero_division_witness :
  cer empty_decoder [] [] = Raise ZeroDivisionError /\
  wer empty_decoder remove_dups [] [] = Raise ZeroDivisionError.
Proof.
  apply (error_rates_zero_division empty_decoder remove_dups [] [] []).
  reflexivity.
Defined.

(** C9, as stated, fails: the exception is not an invalid-input error. *)
Lemma error_rates_no_guard :
  ~ (cer empty_decoder [] [] = Raise ValueError /\
     wer empty_decoder remove_dups [] [] = Raise ValueError).
Proof. intros [Hcer _]. vm_compute in Hcer. discriminate Hcer. Qed.

End MetricsFacts.

(* ===================================================================== *)
(** ** Results on the datasets                                            *)
(* ===================================================================== *)

Module DatasetFacts.
Import Dataset.

(** Reduce the binds of the [result] monad, and nothing else. *)
Tactic Notation "rsimpl" :=
  cbn [mbind result_bind rbind mret result_ret].
Tactic Notation "rsimpl" "in" hyp(H) :=
  cbn [mbind result_bind rbind mret result_ret] in H.

Lemma drop_repeat {A : Type} (v : A) (k n : nat) :
  drop k (repeat v n) = repeat v (n - k).
Proof.
  revert k. induction n as [|n IH]; intros [|k]; simpl; auto.
Qed.

Lemma chars_length (s : string) : length (chars s) = String.length s.
Proof.
  unfold chars. rewrite length_map. induction s as [|c s IH]; simpl; congruence.
Qed.

Lemma tokens_of_length (s : string) : length (tokens_of s) = (String.length s + 2)%nat.
Proof.
  unfold tokens_of. simpl. rewrite length_app, chars_length. simpl. lia.
Qed.

Lemma set_item_shape (n i j : nat) (v : Z) (labels labels' : list (list Z)) :
  set_item i j v labels = Ok labels' ->
  length labels' = length labels /\
  (Forall (fun row => length row = n) labels ->
   Forall (fun row => length row = n) labels').
Proof.
  unfold set_item. destruct (labels !! i) as [row|] eqn:Hrow; [|done].
  destruct (_ <? _)%nat; [|done]. intros [= <-]. split.
  - by rewrite length_insert.
  - intros Hall. apply Forall_insert; [done|]. simpl. rewrite length_insert.
    by apply (Forall_lookup_1 _ _ _ _ Hall Hrow).
Qed.

Lemma fill_row_shape (mapping : gmap string Z) (n i : nat) (tokens : list string) :
  forall j labels labels',
    fill_row Ok mapping i j tokens labels = Ok labels' ->
    length labels' = length labels /\
    (Forall (fun row => length row = n) labels ->
     Forall (fun row => length row = n) labels').
Proof.
  induction tokens as [|token tokens IH]; intros j labels labels'; simpl.
  - by intros [= <-].
  - destruct (mapping_get mapping token) as [v|e]; simpl; [|done].
    destruct (set_item i j v labels) as [labels1|e] eqn:Hset; simpl; [|done].
    intros Hfill. apply (set_item_shape n) in Hset as [Hlen1 Hall1].
    apply IH in Hfill as [Hlen Hall]. split; [congruence|auto].
Qed.

Lemma fill_rows_shape (mapping : gmap string Z) (n : nat) (strings : list string) :
  forall i labels labels',
    fill_rows Ok mapping i strings labels = Ok labels' ->
    length labels' = length labels /\
    (Forall (fun row => length row = n) labels ->
     Forall (fun row => length row = n) labels').
Proof.
  induction strings as [|s strings IH]; intros i labels labels'; cbn [fill_rows].
  - by intros [= <-].
  - destruct (fill_row Ok mapping i 0 (tokens_of s) labels) as [labels1|e] eqn:Hrow;
      rsimpl; [|done].
    intros Hfill. apply (fill_row_shape _ n) in Hrow as [Hlen1 Hall1].
    apply IH in Hfill as [Hlen Hall]. split; [congruence|auto].
Qed.

Lemma initial_labels (p : Z) (rows n : nat) :
  map (map (fun one => (one * p)%Z)) (Torch.ones rows n) = repeat (repeat p n) rows.
Proof.
  unfold Torch.ones. rewrite map_repeat. f_equal. rewrite map_repeat.
  f_equal. lia.
Qed.

(** The tokens from position [j] on are written over the row, when they are
    all mapped and fit. *)
Lemma fill_row_ok (mapping : gmap string Z) (i : nat) (tokens : list string) :
  forall (vs : list Z) (j : nat) (row : list Z) (labels : list (list Z)),
    Forall2 (fun token v => mapping !! token = Some v) tokens vs ->
    labels !! i = Some row ->
    (j + length vs <= length row)%nat ->
    fill_row Ok mapping i j tokens labels =
      Ok (<[i := take j row ++ vs ++ drop (j + length vs) row]> labels).
Proof.
  induction tokens as [|token tokens IH]; intros vs j row labels Hvs Hrow Hfit.
  - inversion Hvs; subst. simpl. rewrite Nat.add_0_r, take_drop.
    by rewrite list_insert_id.
  - inversion Hvs as [|? v ? vs' Hv Hvs']; subst. simpl in *.
    unfold mapping_get. rewrite Hv. simpl. unfold set_item. rewrite Hrow.
    assert (Hj : (j <? length row)%nat = true) by (apply Nat.ltb_lt; lia).
    rewrite Hj. simpl.
    rewrite (IH vs' (S j) (<[j := v]> row)); [| done | | ].
    + rewrite list_insert_insert_eq. f_equal. f_equal.
      rewrite (take_S_r _ _ v) by (apply list_lookup_insert_eq; lia).
      rewrite take_insert_ge by lia. rewrite drop_insert_lt by lia.
      rewrite <- app_assoc. simpl.
      by replace (j + S (length vs'))%nat with (S (j + length vs')) by lia.
    + apply list_lookup_insert_eq. by eapply lookup_lt_Some.
    + rewrite length_insert. lia.
Qed.

(** With every token mapped, the row is written unless the tokens do not
    fit, and then the index error is raised. *)
Lemma fill_row_too_long (mapping : gmap string Z) (i : nat) (tokens : list string) :
  forall (j : nat) (row : list Z) (labels : list (list Z)),
    Forall (fun token => is_Some (mapping !! token)) tokens ->
    labels !! i = Some row ->
    (j <= length row < j + length tokens)%nat ->
    fill_row Ok mapping i j tokens labels = Raise IndexError.
Proof.
  induction tokens as [|token tokens IH]; intros j row labels Hall Hrow Hlen.
  - simpl in Hlen. lia.
  - apply Forall_cons in Hall as [[v Hv] Hall]. simpl in *.
    unfold mapping_get. rewrite Hv. simpl. unfold set_item. rewrite Hrow.
    destruct (j <? length row)%nat eqn:Hj; [|done]. simpl.
    apply Nat.ltb_lt in Hj.
    apply (IH (S j) (<[j := v]> row)); [done| |].
    + apply list_lookup_insert_eq. by eapply lookup_lt_Some.
    + rewrite length_insert. lia.
Qed.

(** With room for every token, the first token without index raises the
    key error. *)
Lemma fill_row_unmapped (mapping : gmap string Z) (i : nat) (tokens : list string) :
  forall (j : nat) (row : list Z) (labels : list (list Z)),
    Exists (fun token => mapping !! token = None) tokens ->
    labels !! i = Some row ->
    (j + length tokens <= length row)%nat ->
    fill_row Ok mapping i j tokens labels = Raise KeyError.
Proof.
  induction tokens as [|token tokens IH]; intros j row labels Hex Hrow Hlen.
  - by inversion Hex.
  - simpl in *. unfold mapping_get.
    destruct (mapping !! token) as [v|] eqn:Hv; [|done]. simpl.
    unfold set_item. rewrite Hrow.
    assert (Hj : (j <? length row)%nat = true) by (apply Nat.ltb_lt; lia).
    rewrite Hj. simpl.
    apply (IH (S j) (<[j := v]> row)).
    + apply Exists_cons in Hex as [Hnone|Hex]; [congruence|done].
    + apply list_lookup_insert_eq. by eapply lookup_lt_Some.
    + rewrite length_insert. lia.
Qed.

Lemma mapped_values (mapping : gmap string Z) (tokens : list string) :
  Forall (fun token => is_Some (mapping !! token)) tokens ->
  exists vs, Forall2 (fun token v => mapping !! token = Some v) tokens vs.
Proof.
  induction 1 as [|token tokens [v Hv] _ (vs & Hvs)].
  - exists []. constructor.
  - exists (v :: vs). by constructor.
Qed.

Lemma fill_row_Ok_inv (mapping : gmap string Z) (i : nat) (tokens : list string) :
  forall (j : nat) (row : list Z) (labels labels' : list (list Z)),
    fill_row Ok mapping i j tokens labels = Ok labels' ->
    labels !! i = Some row ->
    (j <= length row)%nat ->
    Forall (fun token => is_Some (mapping !! token)) tokens /\
    (j + length tokens <= length row)%nat.
Proof.
  induction tokens as [|token tokens IH]; intros j row labels labels' Hfill Hrow Hj.
  - split; [constructor|simpl; lia].
  - cbn [fill_row] in Hfill. unfold mapping_get in Hfill.
    destruct (mapping !! token) as [v|] eqn:Hv; [|done]. rsimpl in Hfill.
    unfold set_item in Hfill. rewrite Hrow in Hfill.
    destruct (j <? length row)%nat eqn:Hlt; [|done]. rsimpl in Hfill.
    apply Nat.ltb_lt in Hlt.
    apply (IH (S j) (<[j := v]> row)) in Hfill as [Hall Hlen].
    + rewrite length_insert in Hlen. split; [|simpl; lia].
      constructor; [by exists v|done].
    + apply list_lookup_insert_eq. by eapply lookup_lt_Some.
    + rewrite length_insert. lia.
Qed.

Lemma fill_rows_ok (mapping : gmap string Z) (p : Z) (n : nat) (strings : list string) :
  forall above : list (list Z),
    Forall (writable mapping n) strings ->
    exists rows,
      fill_rows Ok mapping (length above) strings
                (above ++ repeat (repeat p n) (length strings)) = Ok (above ++ rows) /\
      Forall2 (label_row mapping p n) strings rows.
Proof.
  induction strings as [|s strings IH]; intros above Hall.
  - exists []. simpl. rewrite !app_nil_r. split; [done|constructor].
  - apply Forall_cons in Hall as [[Hfit Hmapped] Hall].
    destruct (mapped_values _ _ Hmapped) as (vs & Hvs).
    assert (Hlen : length vs = (String.length s + 2)%nat).
    { rewrite <- (Forall2_length _ _ _ Hvs). apply tokens_of_length. }
    cbn [fill_rows length repeat].
    rewrite (fill_row_ok mapping (length above) (tokens_of s) vs 0 (repeat p n));
      [|done|by apply list_lookup_middle|rewrite repeat_length; lia].
    rsimpl. rewrite take_0, Nat.add_0_l, drop_repeat. cbn [app].
    rewrite insert_app_r_alt, Nat.sub_diag by lia. cbn [insert list_insert].
    destruct (IH (above ++ [vs ++ repeat p (n - length vs)]) Hall) as (rows & Hrows & Hrel).
    rewrite length_app in Hrows. cbn [length] in Hrows.
    rewrite Nat.add_1_r, <- !app_assoc in Hrows. cbn [app] in Hrows.
    exists ((vs ++ repeat p (n - length vs)) :: rows). split; [done|].
    constructor; [by exists vs|done].
Qed.

Lemma fill_rows_Ok_inv (mapping : gmap string Z) (p : Z) (n : nat) (strings : list string) :
  forall (above labels' : list (list Z)),
    fill_rows Ok mapping (length above) strings
              (above ++ repeat (repeat p n) (length strings)) = Ok labels' ->
    Forall (writable mapping n) strings.
Proof.
  induction strings as [|s strings IH]; intros above labels' Hfill; [constructor|].
  cbn [fill_rows length repeat] in Hfill.
  destruct (fill_row Ok mapping (length above) 0 (tokens_of s)
              (above ++ repeat p n :: repeat (repeat p n) (length strings)))
    as [labels1|e] eqn:Hrow; rsimpl in Hfill; [|done].
  pose proof Hrow as Hinv.
  apply (fill_row_Ok_inv _ _ _ _ (repeat p n)) in Hinv as [Hmapped Hfit];
    [|by apply list_lookup_middle|lia].
  rewrite repeat_length, tokens_of_length in Hfit.
  assert (Hs : writable mapping n s) by (split; [lia|done]).
  constructor; [done|].
  destruct (mapped_values _ _ Hmapped) as (vs & Hvs).
  rewrite (fill_row_ok mapping (length above) (tokens_of s) vs 0 (repeat p n)) in Hrow;
    [|done|by apply list_lookup_middle|].
  - injection Hrow as <-.
    rewrite insert_app_r_alt, Nat.sub_diag in Hfill by lia.
    cbn [insert list_insert] in Hfill.
    apply (IH (above ++ [take 0 (repeat p n) ++ vs ++
                        drop (0 + length vs) (repeat p n)]) labels').
    rewrite length_app. cbn [length]. rewrite Nat.add_1_r, <- app_assoc. done.
  - rewrite repeat_length, <- (Forall2_length _ _ _ Hvs), tokens_of_length. lia.
Qed.

Lemma label_row_functional (mapping : gmap string Z) (p : Z) (n : nat)
    (strings : list string) (rows rows' : list (list Z)) :
  Forall2 (label_row mapping p n) strings rows ->
  Forall2 (label_row mapping p n) strings rows' ->
  rows = rows'.
Proof.
  intros Hrows. revert rows'.
  induction Hrows as [|s row strings rows (vs & Hvs & ->) _ IH]; intros rows' Hrows'.
  - by inversion Hrows'.
  - inversion Hrows' as [|? row' ? rows'' (vs' & Hvs' & ->) Htail]; subst.
    f_equal; [|by apply IH].
    assert (vs = vs') as ->; [|done].
    clear -Hvs Hvs'. revert vs' Hvs'.
    induction Hvs as [|token v tokens vs Hv _ IHv]; intros vs' Hvs'.
    + by inversion Hvs'.
    + inversion Hvs' as [|? v' ? vs'' Hv' Htail']; subst.
      f_equal; [congruence|by apply IHv].
Qed.

Lemma convert_strings_to_labels_Ok_inv (strings : list string)
    (mapping : gmap string Z) (n : nat) (labels : list (list Z)) :
  convert_strings_to_labels Ok Ok strings mapping n = Ok labels ->
  exists p,
    mapping !! "<p>"%string = Some p /\
    Forall (writable mapping n) strings /\
    Forall2 (label_row mapping p n) strings labels.
Proof.
  unfold convert_strings_to_labels, mapping_get.
  destruct (mapping !! "<p>"%string) as [p|]; rsimpl; [|done].
  rewrite initial_labels. intros Hfill. exists p. split; [done|].
  pose proof (fill_rows_Ok_inv mapping p n strings [] labels Hfill) as Hall.
  split; [done|].
  destruct (fill_rows_ok mapping p n strings [] Hall) as (rows & Hrows & Hrel).
  cbn [length app] in *. congruence.
Qed.

(** With conversions that keep the ints of the range of 64-bit integers,
    and a mapping into that range, the indices are stored as they are. *)
Lemma fill_row_int64 (item_scalar : Z -> result Z) (mapping : gmap string Z) :
  keeps_int64 item_scalar ->
  map_Forall (fun _ v => int64 v) mapping ->
  forall tokens i j labels,
    fill_row item_scalar mapping i j tokens labels = fill_row Ok mapping i j tokens labels.
Proof.
  intros Hitem Hrange. induction tokens as [|token tokens IH]; intros i j labels; [done|].
  cbn [fill_row]. unfold mapping_get.
  destruct (mapping !! token) as [v|] eqn:Hv; rsimpl; [|done].
  rewrite (Hitem v) by (by eapply Hrange). rsimpl.
  destruct (set_item i j v labels) as [labels'|e]; rsimpl; [apply IH|done].
Qed.

Lemma fill_rows_int64 (item_scalar : Z -> result Z) (mapping : gmap string Z) :
  keeps_int64 item_scalar ->
  map_Forall (fun _ v => int64 v) mapping ->
  forall strings i labels,
    fill_rows item_scalar mapping i strings labels = fill_rows Ok mapping i strings labels.
Proof.
  intros Hitem Hrange. induction strings as [|s strings IH]; intros i labels; [done|].
  cbn [fill_rows]. rewrite fill_row_int64 by done.
  destruct (fill_row Ok mapping i 0 (tokens_of s) labels) as [labels'|e]; rsimpl;
    [apply IH|done].
Qed.

Lemma convert_strings_to_labels_int64 (mul_scalar item_scalar : Z -> result Z)
    (strings : list string) (mapping : gmap string Z) (n : nat) :
  keeps_int64 mul_scalar ->
  keeps_int64 item_scalar ->
  map_Forall (fun _ v => int64 v) mapping ->
  convert_strings_to_labels mul_scalar item_scalar strings mapping n =
    convert_strings_to_labels Ok Ok strings mapping n.
Proof.
  intros Hmul Hitem Hrange. unfold convert_strings_to_labels, mapping_get.
  destruct (mapping !! "<p>"%string) as [p|] eqn:Hp; rsimpl; [|done].
  rewrite (Hmul p) by (by eapply Hrange). rsimpl.
  by apply fill_rows_int64.
Qed.

Lemma keeps_int64_wrap : keeps_int64 wrap_int64.
Proof.
  intros z Hz. unfold int64 in Hz. unfold wrap_int64. f_equal.
  rewrite Z.mod_small; lia.
Qed.

Lemma keeps_int64_check : keeps_int64 check_int64.
Proof.
  intros z Hz. unfold int64 in Hz. unfold check_int64.
  destruct (Z.leb_spec (- 2 ^ 63) z), (Z.ltb_spec z (2 ^ 63)); simpl; (done || lia).
Qed.

Lemma example_mapping_int64 : map_Forall (fun _ v => int64 v) example_mapping.
Proof.
  intros token v Hv. unfold example_mapping in Hv.
  repeat (apply lookup_insert_Some in Hv as [[_ <-]|[_ Hv]]; [unfold int64; lia|]).
  apply lookup_singleton_Some in Hv as [_ <-]. unfold int64. lia.
Qed.

Lemma convert_strings_to_labels_exact (strings : list string)
    (mapping : gmap string Z) (n : nat) (labels : list (list Z)) :
  convert_strings_to_labels Ok Ok strings mapping n = Ok labels <->
  exists p,
    mapping !! "<p>"%string = Some p /\
    Forall (writable mapping n) strings /\
    Forall2 (label_row mapping p n) strings labels.
Proof.
  split; [apply convert_strings_to_labels_Ok_inv|].
  intros (p & Hp & Hall & Hrel).
  unfold convert_strings_to_labels, mapping_get. rewrite Hp. rsimpl.
  rewrite initial_labels.
  destruct (fill_rows_ok mapping p n strings [] Hall) as (rows & Hrows & Hrel').
  cbn [length app] in *. rewrite Hrows. f_equal.
  by eapply label_row_functional.
Qed.


(** X1. For a mapping into the range of 64-bit integers (which torch
    stores as they are), [convert_strings_to_labels] returns a tensor
    exactly when the mapping has an index for ["<p>"], every string has
    at most [length - 2] characters, and ["<s>"], ["<e>"] and every
    character of every string have an index; the tensor then has, for
    every string, the row [<s>, characters, <e>, <p>, ..., <p>] of
    [length] positions. *)
Theorem convert_strings_to_labels_Ok_iff (mul_scalar item_scalar : Z -> result Z)
    (strings : list string) (mapping : gmap string Z) (n : nat)
    (labels : list (list Z)) :
  keeps_int64 mul_scalar ->
  keeps_int64 item_scalar ->
  map_Forall (fun _ v => int64 v) mapping ->
  convert_strings_to_labels mul_scalar item_scalar strings mapping n = Ok labels <->
  exists p,
    mapping !! "<p>"%string = Some p /\
    Forall (fun s => (String.length s + 2 <= n)%nat /\
                     Forall (fun token => is_Some (mapping !! token))
                            ("<s>"%string :: chars s ++ ["<e>"%string])) strings /\
    Forall2 (fun s row =>
               exists vs,
                 Forall2 (fun token v => mapping !! token = Some v)
                         ("<s>"%string :: chars s ++ ["<e>"%string]) vs /\
                 row = vs ++ repeat p (n - length vs)) strings labels.
Proof.
  intros Hmul Hitem Hrange.
  rewrite convert_strings_to_labels_int64 by done.
  apply convert_strings_to_labels_exact.
Qed.

(** The example: two strings in rows of four positions, with a product
    that wraps around and an assignment that checks the range. *)
Lemma convert_strings_to_labels_Ok_iff_witness :
  convert_strings_to_labels wrap_int64 check_int64 ["ab"%string; ""%string]
                            example_mapping 4 =
    Ok [[80; 1; 2; 81]; [80; 81; 79; 79]]%Z.
Proof.
  apply (convert_strings_to_labels_Ok_iff wrap_int64 check_int64
           ["ab"%string; ""%string] example_mapping 4
           [[80; 1; 2; 81]; [80; 81; 79; 79]]%Z).
  - apply keeps_int64_wrap.
  - apply keeps_int64_check.
  - apply example_mapping_int64.
  - exists 79%Z. split; [reflexivity|]. split.
    + repeat (apply Forall_cons; split; [split; [simpl; lia|compute_done]|]).
      apply Forall_nil_2.
    + constructor; [|constructor; [|constructor]].
      * exists [80; 1; 2; 81]%Z. split; [|reflexivity].
        repeat (constructor; [reflexivity|]). constructor.
      * exists [80; 81]%Z. split; [|reflexivity].
        repeat (constructor; [reflexivity|]). constructor.
Defined.

(** Where the loop over the tokens stops: at the first token without
    index among those up to the first position outside the row (the token
    is looked up before the position is used), and otherwise at that
    position. *)
Lemma fill_row_error (mapping : gmap string Z) (i : nat) (tokens : list string) :
  forall (j : nat) (row : list Z) (labels : list (list Z)),
    labels !! i = Some row ->
    (j <= length row)%nat ->
    (Exists (fun token => mapping !! token = None)
            (take (S (length row - j)) tokens) ->
     fill_row Ok mapping i j tokens labels = Raise KeyError) /\
    (Forall (fun token => is_Some (mapping !! token))
            (take (S (length row - j)) tokens) ->
     (length row - j < length tokens)%nat ->
     fill_row Ok mapping i j tokens labels = Raise IndexError).
Proof.
  induction tokens as [|token tokens IH]; intros j row labels Hrow Hj.
  - split; [by inversion 1|simpl; lia].
  - cbn [take fill_row]. unfold mapping_get, set_item. rewrite Hrow.
    destruct (mapping !! token) as [v|] eqn:Hv; rsimpl.
    + destruct (j <? length row)%nat eqn:Hlt; rsimpl.
      * apply Nat.ltb_lt in Hlt.
        destruct (IH (S j) (<[j := v]> row) (<[i := <[j := v]> row]> labels))
          as [IHkey IHindex].
        { apply list_lookup_insert_eq. by eapply lookup_lt_Some. }
        { rewrite length_insert. lia. }
        rewrite length_insert in IHkey, IHindex.
        replace (S (length row - S j)) with (length row - j)%nat in IHkey, IHindex by lia.
        split.
        -- intros Hex. apply Exists_cons in Hex as [Hnone|Hex]; [congruence|auto].
        -- intros Hall Hlen. apply Forall_cons in Hall as [_ Hall].
           apply IHindex; [done|simpl in Hlen; lia].
      * apply Nat.ltb_ge in Hlt. split; [|done].
        replace (length row - j)%nat with 0%nat by lia. rewrite take_0.
        intros Hex. apply Exists_cons in Hex as [Hnone|Hex]; [congruence|by inversion Hex].
    + split; [done|]. intros Hall _. apply Forall_cons in Hall as [[v' Hv'] _]. congruence.
Qed.

Lemma fill_rows_app (mapping : gmap string Z) (strings strings' : list string) :
  forall (i : nat) (labels : list (list Z)),
    fill_rows Ok mapping i (strings ++ strings') labels =
      labels' ← fill_rows Ok mapping i strings labels;
      fill_rows Ok mapping (i + length strings) strings' labels'.
Proof.
  induction strings as [|s strings IH]; intros i labels.
  - cbn [app fill_rows length]. rsimpl. by rewrite Nat.add_0_r.
  - cbn [app fill_rows length].
    destruct (fill_row Ok mapping i 0 (tokens_of s) labels) as [labels1|e]; rsimpl; [|done].
    rewrite IH. by replace (S i + length strings)%nat with (i + S (length strings))%nat by lia.
Qed.

Lemma convert_strings_to_labels_failure_exact
    (written rest : list string) (s : string)
    (mapping : gmap string Z) (n : nat) (p : Z) :
  mapping !! "<p>"%string = Some p ->
  Forall (writable mapping n) written ->
  ~ writable mapping n s ->
  convert_strings_to_labels Ok Ok (written ++ s :: rest) mapping n =
    Raise (if decide (Forall (fun token => is_Some (mapping !! token))
                             (take (S n) (tokens_of s)))
           then IndexError else KeyError).
Proof.
  intros Hp Hwritten Hs.
  unfold convert_strings_to_labels, mapping_get. rewrite Hp. rsimpl.
  rewrite initial_labels, fill_rows_app.
  rewrite length_app, repeat_app. cbn [length].
  pose proof (fill_rows_ok mapping p n written []) as Hok.
  cbn [length app] in Hok.
  assert (Hprefix : exists rows,
            fill_rows Ok mapping 0 written
              (repeat (repeat p n) (length written) ++
               repeat (repeat p n) (S (length rest))) =
              Ok (rows ++ repeat (repeat p n) (S (length rest))) /\
            length rows = length written).
  { clear -Hwritten. revert Hwritten.
    generalize (repeat (repeat p n) (S (length rest))) as below.
    intros below Hwritten.
    assert (Hgen : forall above,
              exists rows,
                fill_rows Ok mapping (length above) written
                  (above ++ repeat (repeat p n) (length written) ++ below) =
                  Ok (above ++ rows ++ below) /\ length rows = length written).
    { induction written as [|s' written IH]; intros above.
      - exists []. by cbn [fill_rows repeat length app].
      - apply Forall_cons in Hwritten as [[Hfit Hmapped] Hwritten].
        destruct (mapped_values _ _ Hmapped) as (vs & Hvs).
        assert (Hlen : length vs = (String.length s' + 2)%nat).
        { rewrite <- (Forall2_length _ _ _ Hvs). apply tokens_of_length. }
        cbn [fill_rows length repeat app].
        rewrite (fill_row_ok mapping (length above) (tokens_of s') vs 0 (repeat p n));
          [|done|by apply list_lookup_middle|rewrite repeat_length; lia].
        rsimpl. rewrite insert_app_r_alt, Nat.sub_diag by lia.
        cbn [insert list_insert].
        destruct (IH Hwritten (above ++ [take 0 (repeat p n) ++ vs ++
                                          drop (0 + length vs) (repeat p n)]))
          as (rows & Hrows & Hlenrows).
        rewrite length_app in Hrows. cbn [length] in Hrows.
        rewrite Nat.add_1_r, <- !app_assoc in Hrows. cbn [app] in Hrows.
        eexists (_ :: rows). split; [exact Hrows|]. simpl. by rewrite Hlenrows. }
    destruct (Hgen []) as (rows & Hrows & Hlen). by exists rows. }
  destruct Hprefix as (rows & -> & Hlen). rsimpl. cbn [fill_rows Nat.add].
  assert (Hrow : (rows ++ repeat (repeat p n) (S (length rest))) !! length written
                 = Some (repeat p n)).
  { rewrite <- Hlen. cbn [repeat]. by apply list_lookup_middle. }
  destruct (fill_row_error mapping (length written) (tokens_of s) 0 (repeat p n) _ Hrow)
    as [Hkey Hindex]; [lia|].
  rewrite repeat_length, Nat.sub_0_r in Hkey, Hindex.
  destruct (decide (Forall _ (take (S n) (tokens_of s)))) as [Hall|Hnot].
  - rewrite Hindex; [done|done|].
    rewrite tokens_of_length.
    destruct (decide (n < String.length s + 2)%nat) as [|Hfit]; [done|].
    exfalso. apply Hs. split; [lia|].
    rewrite take_ge in Hall; [done|]. rewrite tokens_of_length. lia.
  - rewrite Hkey; [done|].
    apply not_Forall_Exists in Hnot; [|apply _].
    eapply Exists_impl; [exact Hnot|]. intros token Hnone. simpl in Hnone.
    by apply eq_None_not_Some.
Qed.

(** X2. For a mapping into the range of 64-bit integers that has an index
    for ["<p>"], the first string that cannot be written decides the
    exception: the strings before it are written, and the call raises
    KeyError when one of the first [length + 1] tokens of that string has
    no index, and IndexError otherwise, that is, when the string has more
    than [length - 2] characters. *)
Theorem convert_strings_to_labels_first_failure
    (mul_scalar item_scalar : Z -> result Z)
    (written rest : list string) (s : string)
    (mapping : gmap string Z) (n : nat) (p : Z) :
  keeps_int64 mul_scalar ->
  keeps_int64 item_scalar ->
  map_Forall (fun _ v => int64 v) mapping ->
  mapping !! "<p>"%string = Some p ->
  Forall (fun s' => (String.length s' + 2 <= n)%nat /\
                    Forall (fun token => is_Some (mapping !! token))
                           ("<s>"%string :: chars s' ++ ["<e>"%string])) written ->
  ~ ((String.length s + 2 <= n)%nat /\
     Forall (fun token => is_Some (mapping !! token))
            ("<s>"%string :: chars s ++ ["<e>"%string])) ->
  convert_strings_to_labels mul_scalar item_scalar (written ++ s :: rest) mapping n =
    Raise (if decide (Forall (fun token => is_Some (mapping !! token))
                             (take (S n) ("<s>"%string :: chars s ++ ["<e>"%string])))
           then IndexError else KeyError).
Proof.
  intros Hmul Hitem Hrange Hp Hwritten Hs.
  rewrite convert_strings_to_labels_int64 by done.
  by apply (convert_strings_to_labels_failure_exact written rest s mapping n p).
Qed.

(** The example: ["abab"] has as many characters as the rows have
    positions, the documented maximum, and raises IndexError; the string
    after it is not looked at. *)
Lemma convert_strings_to_labels_first_failure_witness :
  convert_strings_to_labels wrap_int64 check_int64
    (["ab"%string] ++ "abab"%string :: ["b"%string]) example_mapping 4 =
    Raise IndexError.
Proof.
  etrans.
  - apply (convert_strings_to_labels_first_failure wrap_int64 check_int64
             ["ab"%string] ["b"%string] "abab"%string example_mapping 4 79).
    + apply keeps_int64_wrap.
    + apply keeps_int64_check.
    + apply example_mapping_int64.
    + reflexivity.
    + apply Forall_cons. split; [|apply Forall_nil_2].
      split; [simpl; lia|compute_done].
    + intros [Hfit _]. simpl in Hfit. lia.
  - reflexivity.
Defined.

Lemma nonzero_eq_from_app (k : nat) (a b : list Z) (e : Z) :
  Metrics.nonzero_eq_from k (a ++ b) e =
    Metrics.nonzero_eq_from k a e ++ Metrics.nonzero_eq_from (k + length a) b e.
Proof.
  revert k. induction a as [|v a IH]; intros k; simpl.
  - by rewrite Nat.add_0_r.
  - replace (k + S (length a))%nat with (S k + length a)%nat by lia.
    destruct (v =? e)%Z; simpl; by rewrite IH.
Qed.

Lemma nonzero_eq_from_none (k : nat) (l : list Z) (e : Z) :
  Forall (fun v => v ≠ e) l -> Metrics.nonzero_eq_from k l e = [].
Proof.
  intros Hl. revert k. induction Hl as [|v l Hv _ IH]; intros k; simpl; [done|].
  apply Z.eqb_neq in Hv. by rewrite Hv.
Qed.

Lemma chars_not_marker (s token : string) :
  token ∈ chars s -> token ≠ "<e>"%string.
Proof.
  unfold chars. intros Hin. apply list_elem_of_fmap in Hin as (c & -> & _). done.
Qed.

(** The end token of a written row: one, right after the characters. *)
Lemma label_row_end_position (mapping : gmap string Z) (p e : Z) (n k : nat)
    (s : string) (row : list Z) :
  mapping !! "<p>"%string = Some p ->
  mapping !! "<e>"%string = Some e ->
  (forall token, mapping !! token = Some e -> token = "<e>"%string) ->
  writable mapping n s ->
  label_row mapping p n s row ->
  length row = n /\
  Metrics.nonzero_eq_from k row e = [(k + String.length s + 1)%nat].
Proof.
  intros Hp He Hinj [Hfit _] (vs & Hvs & ->).
  assert (Hlen : length vs = (String.length s + 2)%nat).
  { rewrite <- (Forall2_length _ _ _ Hvs). apply tokens_of_length. }
  split.
  { rewrite length_app, repeat_length. lia. }
  unfold tokens_of in Hvs.
  apply Forall2_cons_inv_l in Hvs as (v0 & vs' & Hv0 & Hvs & ->).
  apply Forall2_app_inv_l in Hvs as (cs & ve & Hcs & Hve & ->).
  apply Forall2_cons_inv_l in Hve as (e' & ve' & He' & Hnil & ->).
  apply Forall2_nil_inv_l in Hnil as ->.
  assert (e' = e) as -> by congruence.
  assert (Hlcs : length cs = String.length s).
  { rewrite <- (Forall2_length _ _ _ Hcs). apply chars_length. }
  assert (Hcs' : Forall (fun v => v ≠ e) cs).
  { eapply Forall2_Forall_r; [exact Hcs|]. apply Forall_forall.
    intros token Htoken v Hv ->. by apply (chars_not_marker s token), Hinj. }
  assert (Hv0' : (v0 =? e)%Z = false).
  { apply Z.eqb_neq. intros ->. by apply Hinj in Hv0. }
  assert (Hp' : p ≠ e).
  { intros ->. by apply Hinj in Hp. }
  cbn [app]. rewrite <- app_assoc. cbn [Metrics.nonzero_eq_from]. rewrite Hv0'.
  rewrite nonzero_eq_from_app, (nonzero_eq_from_none _ cs) by done.
  cbn [app Metrics.nonzero_eq_from]. rewrite Z.eqb_refl.
  rewrite nonzero_eq_from_none.
  - f_equal. lia.
  - apply Forall_forall. intros v Hv. apply list_elem_of_In, repeat_spec in Hv. by subst v.
Qed.

Lemma label_rows_end_positions (mapping : gmap string Z) (p e : Z) (n : nat)
    (strings : list string) (rows : list (list Z)) :
  mapping !! "<p>"%string = Some p ->
  mapping !! "<e>"%string = Some e ->
  (forall token, mapping !! token = Some e -> token = "<e>"%string) ->
  Forall (writable mapping n) strings ->
  Forall2 (label_row mapping p n) strings rows ->
  forall i0,
    length (concat rows) = (length strings * n)%nat /\
    Metrics.nonzero_eq_from (i0 * n) (concat rows) e =
      imap (fun i s => ((i0 + i) * n + String.length s + 1)%nat) strings.
Proof.
  intros Hp He Hinj Hall Hrows. revert Hall.
  induction Hrows as [|s row strings rows Hrow _ IH]; intros Hall i0.
  - done.
  - apply Forall_cons in Hall as [Hs Hall].
    destruct (label_row_end_position mapping p e n (i0 * n) s row Hp He Hinj Hs Hrow)
      as [Hlen Hpos].
    destruct (IH Hall (S i0)) as [IHlen IHpos].
    cbn [concat length]. rewrite length_app, IHlen, Hlen. split; [lia|].
    rewrite nonzero_eq_from_app, Hpos, Hlen.
    replace (i0 * n + n)%nat with (S i0 * n)%nat by lia. rewrite IHpos.
    cbn [imap app]. f_equal; [f_equal; lia|].
    apply imap_ext. intros i s' _. simpl. lia.
Qed.

(** X3. For a mapping into the range of 64-bit integers, the labels that
    [convert_strings_to_labels] returns hold the index of ["<e>"] once in
    every row, right after the characters (when no other token of the
    mapping has that index). Read row after row, as the
    one-dimensional target of [accuracy_ignore_pad] with [seq_len = length],
    the j-th end token therefore lies in the j-th block, which is the
    condition under which that function masks block by block. *)
Theorem convert_strings_to_labels_end_tokens
    (mul_scalar item_scalar : Z -> result Z) (strings : list string)
    (mapping : gmap string Z) (n : nat) (e : Z) (labels : list (list Z)) :
  keeps_int64 mul_scalar ->
  keeps_int64 item_scalar ->
  map_Forall (fun _ v => int64 v) mapping ->
  convert_strings_to_labels mul_scalar item_scalar strings mapping n = Ok labels ->
  mapping !! "<e>"%string = Some e ->
  (forall token, mapping !! token = Some e -> token = "<e>"%string) ->
  length (concat labels) = (length strings * n)%nat /\
  Metrics.start_indices (concat labels) e =
    imap (fun i s => (i * n + String.length s + 1)%nat) strings /\
  forall j q,
    Metrics.start_indices (concat labels) e !! j = Some q ->
    (j * n <= q < S j * n)%nat.
Proof.
  intros Hmul Hitem Hrange Hconv He Hinj.
  rewrite convert_strings_to_labels_int64 in Hconv by done.
  apply convert_strings_to_labels_Ok_inv in Hconv as (p & Hp & Hall & Hrows).
  destruct (label_rows_end_positions mapping p e n strings labels Hp He Hinj Hall Hrows 0)
    as [Hlen Hpos].
  split; [done|]. unfold Metrics.start_indices. cbn [Nat.mul Nat.add] in Hpos.
  split; [done|]. intros j q. rewrite Hpos, list_lookup_imap.
  destruct (strings !! j) as [s|] eqn:Hs; [|done]. simpl. intros [= <-].
  destruct (Forall_lookup_1 _ _ _ _ Hall Hs) as [Hfit _]. lia.
Qed.

Lemma convert_strings_to_labels_end_tokens_witness :
  length (concat [[80; 1; 2; 81]; [80; 81; 79; 79]]%Z) = (length ["ab"%string; ""%string] * 4)%nat /\
  Metrics.start_indices (concat [[80; 1; 2; 81]; [80; 81; 79; 79]]%Z) 81 =
    imap (fun i s => (i * 4 + String.length s + 1)%nat) ["ab"%string; ""%string] /\
  forall j q,
    Metrics.start_indices (concat [[80; 1; 2; 81]; [80; 81; 79; 79]]%Z) 81 !! j = Some q ->
    (j * 4 <= q < S j * 4)%nat.
Proof.
  apply (convert_strings_to_labels_end_tokens wrap_int64 check_int64
           ["ab"%string; ""%string]
           example_mapping 4 81 [[80; 1; 2; 81]; [80; 81; 79; 79]]%Z).
  - apply keeps_int64_wrap.
  - apply keeps_int64_check.
  - apply example_mapping_int64.
  - reflexivity.
  - reflexivity.
  - intros token Htoken.
    unfold example_mapping in Htoken.
    repeat (apply lookup_insert_Some in Htoken as [[<- Heq]|[_ Htoken]];
            [by (done || discriminate Heq)|]).
    by apply lookup_singleton_Some in Htoken as [<- Heq].
Defined.

(** *** BaseDataset *)

Lemma py_getitem_in_range {A : Type} (sequence : list A) (index : Z) :
  (- Z.of_nat (length sequence) <= index < Z.of_nat (length sequence))%Z ->
  exists x,
    sequence !! Z.to_nat (index mod Z.of_nat (length sequence)) = Some x /\
    py_getitem sequence index = Ok x.
Proof.
  intros Hrange. unfold py_getitem.
  set (n := Z.of_nat (length sequence)) in *.
  assert (Hmod : (if (index <? 0)%Z then (index + n)%Z else index)
                 = (index mod n)%Z).
  { destruct (Z.ltb_spec index 0).
    - apply (Z.mod_unique _ _ (-1)); lia.
    - symmetry. apply Z.mod_small. lia. }
  rewrite Hmod.
  assert (Hpos : (0 <= index mod n < n)%Z) by (apply Z.mod_pos_bound; lia).
  assert (Hcond : ((0 <=? index mod n) && (index mod n <? n))%Z = true).
  { apply andb_true_iff. split; [apply Z.leb_le|apply Z.ltb_lt]; lia. }
  rewrite Hcond.
  destruct (lookup_lt_is_Some_2 sequence (Z.to_nat (index mod n))) as [x Hx]; [lia|].
  exists x. by rewrite Hx.
Qed.

Lemma py_getitem_out_of_range {A : Type} (sequence : list A) (index : Z) :
  ~ (- Z.of_nat (length sequence) <= index < Z.of_nat (length sequence))%Z ->
  py_getitem sequence index = Raise IndexError.
Proof.
  intros Hrange. unfold py_getitem.
  set (n := Z.of_nat (length sequence)) in *.
  destruct (Z.ltb_spec index 0).
  - destruct (Z.leb_spec 0 (index + n)); [lia|done].
  - destruct (Z.leb_spec 0 index); [|done].
    destruct (Z.ltb_spec index n); [lia|done].
Qed.

(** X4. A dataset that the constructor accepted (as many data as targets)
    serves every index in [-len, len): the item is the datum and the
    target at that position, counted from the end for a negative index,
    each replaced by what its transform returns when there is one (or
    the transform's exception, the datum's first); every other index
    raises IndexError before any transform is called. *)
Theorem BaseDataset_getitem {D T : Type} (self : BaseDataset D T) (index : Z) :
  __attrs_post_init__ self = Ok self ->
  let n := Z.of_nat (length (data self)) in
  ((- n <= index < n)%Z ->
   exists datum target,
     data self !! Z.to_nat (index mod n) = Some datum /\
     targets self !! Z.to_nat (index mod n) = Some target /\
     __getitem__ self index =
       match match transform self with Some f => f datum | None => Ok datum end with
       | Raise e => Raise e
       | Ok datum' =>
           match match target_transform self with
                 | Some g => g target
                 | None => Ok target
                 end with
           | Raise e => Raise e
           | Ok target' => Ok (datum', target')
           end
       end) /\
  (~ (- n <= index < n)%Z -> __getitem__ self index = Raise IndexError).
Proof.
  cbv zeta. unfold __attrs_post_init__, __getitem__.
  destruct (length (data self) =? length (targets self))%nat eqn:Hlen; [|done].
  apply Nat.eqb_eq in Hlen. intros _. split.
  - intros Hrange.
    destruct (py_getitem_in_range (data self) index Hrange) as (datum & Hd & ->).
    rewrite Hlen in Hrange.
    destruct (py_getitem_in_range (targets self) index Hrange) as (target & Ht & ->).
    exists datum, target. split; [done|]. split; [by rewrite Hlen|].
    rsimpl. unfold apply_optional.
    destruct (transform self) as [f|], (target_transform self) as [g|]; rsimpl;
      repeat case_match; done.
  - intros Hrange. by rewrite (py_getitem_out_of_range _ _ Hrange).
Qed.

(** The example: the last item of three, with a transform of the datum
    and none of the target. *)
Lemma BaseDataset_getitem_witness :
  __getitem__ {| data := [10; 20; 30]%Z; targets := [1; 2; 3]%Z;
                 transform := Some (fun d => Ok (d + 1)%Z);
                 target_transform := None |} (-1) = Ok (31, 3)%Z.
Proof.
  destruct (BaseDataset_getitem
              {| data := [10; 20; 30]%Z; targets := [1; 2; 3]%Z;
                 transform := Some (fun d => Ok (d + 1)%Z);
                 target_transform := None |} (-1)) as [Hin _]; [reflexivity|].
  destruct Hin as (datum & target & Hdatum & Htarget & Hitem); [simpl; lia|].
  rewrite Hitem.
  injection Hdatum as <-. injection Htarget as <-. reflexivity.
Defined.

End DatasetFacts.

(* ===================================================================== *)
(** ** Further results on the metrics                                     *)
(* ===================================================================== *)

Module MetricsMore.
Import Metrics MetricsFacts.

(** *** accuracy_ignore_pad *)

(** The value and the store of a call, in one equation. *)
Lemma accuracy_ignore_pad_eq (output target : loc) (pad_index eos_index : Z)
    (seq_len : nat) (σ : store) (o : list (list Q)) (t : list Z) :
  σ !! output = Some (Float2 o) ->
  σ !! target = Some (Long1 t) ->
  accuracy_ignore_pad output target pad_index eos_index seq_len σ =
    match end_indices seq_len (length t) with
    | Ok stops =>
        (accuracy (masked_output t pad_index eos_index stops o) t,
         <[output := Float2 (masked_output t pad_index eos_index stops o)]> σ)
    | Raise e => (Raise e, σ)
    end.
Proof.
  intros Ho Ht. unfold accuracy_ignore_pad. rewrite Ho, Ht.
  destruct (end_indices seq_len (length t)) as [stops|e]; [|done].
  rewrite (foldl_mask_step _ _ _ _ o Ho), lookup_insert_eq. done.
Qed.

Lemma masked_output_idempotent (target : list Z) (pad_index eos_index : Z)
    (stops : list nat) (o : list (list Q)) :
  masked_output target pad_index eos_index stops
    (masked_output target pad_index eos_index stops o) =
  masked_output target pad_index eos_index stops o.
Proof.
  apply list_eq. intros r. rewrite !masked_output_lookup.
  destruct (o !! r) as [row|]; [|done]. cbn [fmap option_fmap option_map].
  f_equal. destruct (existsb _ _); [|done]. by rewrite map_map.
Qed.

(** X5. Calling [accuracy_ignore_pad] a second time with the same
    arguments returns the same value and leaves the store as the first
    call left it: the overwriting is idempotent. *)
Theorem accuracy_ignore_pad_twice (output target : loc) (pad_index eos_index : Z)
    (seq_len : nat) (σ : store) (o : list (list Q)) (t : list Z) :
  σ !! output = Some (Float2 o) ->
  σ !! target = Some (Long1 t) ->
  let first := accuracy_ignore_pad output target pad_index eos_index seq_len σ in
  accuracy_ignore_pad output target pad_index eos_index seq_len first.2 = first.
Proof.
  intros Ho Ht first. subst first.
  rewrite (accuracy_ignore_pad_eq _ _ _ _ _ _ o t Ho Ht).
  destruct (end_indices seq_len (length t)) as [stops|e] eqn:Hstops.
  - cbn [snd].
    assert (Hne : target ≠ output) by (intros ->; congruence).
    rewrite (accuracy_ignore_pad_eq _ _ _ _ _ _
               (masked_output t pad_index eos_index stops o) t);
      [|by rewrite lookup_insert_eq|by rewrite lookup_insert_ne].
    rewrite Hstops, masked_output_idempotent. by rewrite insert_insert_eq.
  - cbn [snd]. rewrite (accuracy_ignore_pad_eq _ _ _ _ _ _ o t Ho Ht).
    by rewrite Hstops.
Qed.

Lemma accuracy_ignore_pad_twice_witness :
  let first := accuracy_ignore_pad 1%positive 2%positive 79 81 2
                 (example_store [81; 5; 81; 6]%Z) in
  accuracy_ignore_pad 1%positive 2%positive 79 81 2 first.2 = first.
Proof.
  apply (accuracy_ignore_pad_twice 1%positive 2%positive 79 81 2
           (example_store [81; 5; 81; 6]%Z)
           [[0; 1]; [0; 1]; [0; 1]; [0; 1]]%Q [81; 5; 81; 6]%Z).
  - reflexivity.
  - reflexivity.
Defined.

Lemma argmax_from_constant (v : Q) (best_i i n : nat) :
  argmax_from best_i v i (repeat v n) = best_i.
Proof.
  revert i. induction n as [|n IH]; intros i; [done|]. simpl.
  destruct (Qlt_le_dec v v) as [Hlt|_]; [|apply IH].
  by apply Qlt_irrefl in Hlt.
Qed.

Lemma argmax_constant_row (v : Q) (row : list Q) :
  row ≠ [] -> argmax (map (fun _ => v) row) = Ok 0%Z.
Proof.
  intros Hrow. destruct row as [|w row]; [done|]. cbn [map argmax].
  f_equal. replace (map (fun _ => v) row) with (repeat v (length row)).
  - by rewrite argmax_from_constant.
  - induction row as [|w' row IH]; simpl; [done|]. by rewrite IH.
Qed.

(** X6. The rows that [accuracy_ignore_pad] overwrites hold the pad index
    as the score of every class, so their arg-max (the first maximal
    entry) is class 0, whatever the pad index is: an overwritten position
    is counted by [accuracy] as correct exactly when its label is 0. *)
Theorem masked_rows_predict_class_0 (target : list Z) (pad_index eos_index : Z)
    (stops : list nat) (o : list (list Q)) (predicted : list Z) (r : nat) :
  mapM argmax (masked_output target pad_index eos_index stops o) = Ok predicted ->
  existsb (fun p : nat * nat => (S p.1 <=? r) && (r <? p.2))%nat
          (zip (start_indices target eos_index) stops) = true ->
  (r < length o)%nat ->
  predicted !! r = Some 0%Z.
Proof.
  intros Hpred Hcov Hr. apply mapM_Ok in Hpred.
  destruct (lookup_lt_is_Some_2 o r Hr) as [row Hrow].
  pose proof (masked_output_lookup target pad_index eos_index stops o r) as Hlook.
  rewrite Hrow, Hcov in Hlook. cbn [fmap option_fmap option_map] in Hlook.
  destruct (Forall2_lookup_l _ _ _ _ _ Hpred Hlook) as (y & Hy & Hargmax).
  destruct row as [|w row]; [done|].
  rewrite argmax_constant_row in Hargmax by done. congruence.
Qed.

Lemma masked_rows_predict_class_0_witness :
  [1; 0; 1; 0]%Z !! 1%nat = Some 0%Z.
Proof.
  apply (masked_rows_predict_class_0 [81; 5; 81; 6]%Z 79 81 [2; 4]%nat
           [[0; 1]; [0; 1]; [0; 1]; [0; 1]]%Q [1; 0; 1; 0]%Z 1).
  - reflexivity.
  - reflexivity.
  - simpl. lia.
Defined.

(** X7. When the target holds no end token, or [seq_len] is larger than
    the number of labels, nothing is overwritten: the call returns
    [accuracy(output, target)] and the store is as before. *)
Theorem accuracy_ignore_pad_nothing_to_mask (output target : loc)
    (pad_index eos_index : Z) (seq_len : nat) (σ : store)
    (o : list (list Q)) (t : list Z) :
  σ !! output = Some (Float2 o) ->
  σ !! target = Some (Long1 t) ->
  seq_len ≠ 0%nat ->
  Forall (fun v => v ≠ eos_index) t \/ (length t < seq_len)%nat ->
  accuracy_ignore_pad output target pad_index eos_index seq_len σ =
    (accuracy o t, σ).
Proof.
  intros Ho Ht Hseq Hnone.
  rewrite (accuracy_ignore_pad_eq _ _ _ _ _ _ o t Ho Ht).
  unfold end_indices. destruct seq_len as [|m]; [done|].
  assert (Hpairs : zip (start_indices t eos_index)
                       (map (fun k => (S k * S m)%nat) (seq 0 (length t / S m))) = []).
  { destruct Hnone as [Hnone|Hshort].
    - unfold start_indices. by rewrite DatasetFacts.nonzero_eq_from_none.
    - rewrite Nat.div_small by done. by destruct (start_indices t eos_index). }
  unfold masked_output. rewrite Hpairs. cbn [foldl]. by rewrite insert_id.
Qed.

Lemma accuracy_ignore_pad_nothing_to_mask_witness :
  accuracy_ignore_pad 1%positive 2%positive 79 81 2 (example_store [5; 6; 7; 8]%Z) =
    (accuracy [[0; 1]; [0; 1]; [0; 1]; [0; 1]]%Q [5; 6; 7; 8]%Z,
     example_store [5; 6; 7; 8]%Z).
Proof.
  apply (accuracy_ignore_pad_nothing_to_mask 1%positive 2%positive 79 81 2
           (example_store [5; 6; 7; 8]%Z)
           [[0; 1]; [0; 1]; [0; 1]; [0; 1]]%Q [5; 6; 7; 8]%Z).
  - reflexivity.
  - reflexivity.
  - done.
  - left. repeat constructor; done.
Defined.

(** *** Edit distance *)

Section LevenshteinMore.

Context {A : Type} `{EqDecision A}.
Implicit Types s t : list A.

Lemma levenshtein_sym s t : levenshtein s t = levenshtein t s.
Proof.
  revert t. induction s as [|a s IHs]; intros t.
  - by rewrite levenshtein_nil_r.
  - induction t as [|b t IHt].
    + by rewrite levenshtein_nil_r.
    + rewrite !levenshtein_cons_cons, IHt, (IHs (b :: t)), (IHs t).
      destruct (decide (a = b)) as [->|Hab].
      * destruct (decide (b = b)); [lia|done].
      * destruct (decide (b = a)) as [->|]; [done|lia].
Qed.

Lemma levenshtein_bounds s t :
  (length s - length t <= levenshtein s t)%nat /\
  (length t - length s <= levenshtein s t)%nat /\
  (levenshtein s t <= Nat.max (length s) (length t))%nat.
Proof.
  revert t. induction s as [|a s IHs]; intros t.
  - simpl. lia.
  - induction t as [|b t IHt].
    + simpl. lia.
    + rewrite levenshtein_cons_cons.
      pose proof (IHs (b :: t)) as H1. pose proof (IHs t) as H2.
      cbn [length] in *.
      destruct (decide (a = b)); lia.
Qed.

End LevenshteinMore.

Lemma zip_cer_pair_swap (dp dt : list (list pystr)) :
  sum_list (map (fun pt : list pystr * list pystr => cer_pair pt.1 pt.2) (zip dp dt)) =
  sum_list (map (fun pt : list pystr * list pystr => cer_pair pt.1 pt.2) (zip dt dp)).
Proof.
  revert dt. induction dp as [|p dp IH]; intros [|t dt]; simpl; try done.
  rewrite IH. f_equal. unfold cer_pair. apply levenshtein_sym.
Qed.

(** X8. The character error rate is symmetric: with as many decoded
    predictions as decoded targets, exchanging the two lists gives the same
    value (or the same exception). *)
Theorem cer_decoded_symmetric (decoded_predictions decoded_targets : list (list pystr)) :
  length decoded_predictions = length decoded_targets ->
  cer_decoded decoded_predictions decoded_targets =
    cer_decoded decoded_targets decoded_predictions.
Proof.
  intros Hlen. unfold cer_decoded. rewrite !foldl_add_sum, Hlen.
  by rewrite zip_cer_pair_swap.
Qed.

Lemma cer_decoded_symmetric_witness :
  cer_decoded [[str "ab"]; [str "c d"]] [[str "a b"]; [str "cx"]] =
    cer_decoded [[str "a b"]; [str "cx"]] [[str "ab"]; [str "c d"]].
Proof.
  apply (cer_decoded_symmetric [[str "ab"]; [str "c d"]] [[str "a b"]; [str "cx"]]).
  reflexivity.
Defined.

(** X9. The contribution of one pair to [cer] lies between the difference
    and the larger of the lengths of the two strings (joined, spaces
    removed); so an empty decoded prediction contributes the length of
    the target, and an empty target the length of the prediction. *)
Theorem cer_pair_bounds (prediction target : list pystr) :
  let p := remove_spaces (join prediction) in
  let t := remove_spaces (join target) in
  (length p - length t <= cer_pair prediction target)%nat /\
  (length t - length p <= cer_pair prediction target)%nat /\
  (cer_pair prediction target <= Nat.max (length p) (length t))%nat /\
  (p = [] -> cer_pair prediction target = length t) /\
  (t = [] -> cer_pair prediction target = length p).
Proof.
  intros p t. unfold cer_pair. fold p t.
  destruct (levenshtein_bounds p t) as (Hlo1 & Hlo2 & Hhi).
  repeat split; try done.
  - by intros ->.
  - intros ->. apply levenshtein_nil_r.
Qed.

Lemma zip_app_same_length {X Y : Type} (l l' : list X) (k : list Y) :
  length l = length k -> zip (l ++ l') k = zip l k.
Proof.
  revert k. induction l as [|x l IH]; intros [|y k] Hlen; simpl in *; try done.
  - by destruct l'.
  - f_equal. apply IH. lia.
Qed.

(** X10. [cer] pairs predictions and targets with [zip] and divides by
    the number of predictions: decoded predictions beyond the last target
    add nothing to the sum of distances, but they are counted in the
    divisor. *)
Theorem cer_decoded_extra_predictions
    (decoded_predictions extra decoded_targets : list (list pystr)) :
  length decoded_predictions = length decoded_targets ->
  decoded_predictions ≠ [] ->
  cer_decoded (decoded_predictions ++ extra) decoded_targets =
    Ok (Z.of_nat (sum_list (map (fun pt : list pystr * list pystr => cer_pair pt.1 pt.2)
                                (zip decoded_predictions decoded_targets)))
        # Pos.of_nat (length decoded_predictions + length extra)).
Proof.
  intros Hlen Hne. rewrite cer_decoded_eq.
  - by rewrite zip_app_same_length, length_app.
  - by destruct decoded_predictions.
Qed.

Lemma cer_decoded_extra_predictions_witness :
  cer_decoded ([[str "ab"]] ++ [[str "zzz"]]) [[str "ax"]] =
    Ok (Z.of_nat (sum_list (map (fun pt : list pystr * list pystr => cer_pair pt.1 pt.2)
                                (zip [[str "ab"]] [[str "ax"]])))
        # Pos.of_nat (length [[str "ab"]] + length [[str "zzz"]])).
Proof.
  apply (cer_decoded_extra_predictions [[str "ab"]] [[str "zzz"]] [[str "ax"]]).
  - reflexivity.
  - done.
Defined.

(** X11. The contribution of one pair to [wer] is 0 exactly when the
    prediction and the target hold the same sequence of words, whatever
    the whitespace before, between and after the words: each text is
    given by its words, the gaps before them and what trails the last
    one, and only the words decide. *)
Theorem wer_pair_zero_iff (set_order : list pystr -> list pystr)
    (prediction target : list pystr)
    (items_p items_t : list (pystr * pystr)) (trail_p trail_t : pystr) :
  (forall ws, NoDup (set_order ws)) ->
  (forall ws w, w ∈ set_order ws <-> w ∈ ws) ->
  concat prediction = layout items_p trail_p ->
  well_spaced items_p trail_p ->
  concat target = layout items_t trail_t ->
  well_spaced items_t trail_t ->
  (N.of_nat (length (remove_dups (items_p.*2 ++ items_t.*2))) <= 1114112)%N ->
  wer_pair set_order prediction target = Ok 0%nat <->
  items_p.*2 = items_t.*2.
Proof.
  intros Hnodup Helem Hp Hsp Ht Hst Hlen.
  rewrite (wer_pair_word_distance set_order Hnodup Helem).
  - unfold join. rewrite Hp, Ht, !split_layout by done.
    rewrite <- levenshtein_0_iff. split; [by intros [= ->]|by intros ->].
  - unfold join. rewrite Hp, Ht, !split_layout by done.
    by rewrite (length_set_order set_order Hnodup Helem).
Qed.

(** The example: two spaces, a symbol boundary and a trailing space on one
    side, single spaces on the other. *)
Lemma wer_pair_zero_iff_witness :
  wer_pair remove_dups [str "the  quick"; str " fox "] [str "the quick fox"]
    = Ok 0%nat.
Proof.
  apply (wer_pair_zero_iff remove_dups
           [str "the  quick"; str " fox "] [str "the quick fox"]
           [([], str "the"); (str "  ", str "quick"); (str " ", str "fox")]
           [([], str "the"); (str " ", str "quick"); (str " ", str "fox")]
           (str " ") []).
  - intros ws. apply NoDup_remove_dups.
  - intros ws w. apply elem_of_remove_dups.
  - reflexivity.
  - unfold well_spaced, whitespace, is_word. repeat constructor; done.
  - reflexivity.
  - unfold well_spaced, whitespace, is_word. repeat constructor; done.
  - vm_compute. discriminate.
  - reflexivity.
Defined.

End MetricsMore.

(* ===================================================================== *)
(** ** Further results on Reader.predict                                  *)
(* ===================================================================== *)

Module ReaderMore.
Import Reader ReaderFacts.

(** The mask of the second loop for one image: the chained comparison
    holds only for a pad token before position [i], and only when the bits
    of the end index are among those of the pad index. *)
Lemma mask_index_single (self : config) (row : list Z) (i : nat) :
  mask_index self [row] i =
    Ok [(nth (i - 1) row 0 =? pad_index self)%Z
        && (Z.lor (end_index self) (pad_index self) =? pad_index self)%Z].
Proof.
  unfold mask_index. cbn [Torch.column map zip_with Torch.tensor_bool].
  set (x := nth (i - 1) row 0%Z).
  cbn [mbind result_bind rbind]. f_equal.
  destruct (Z.eqb_spec x (Z.lor (end_index self) x)) as [Hx|Hx].
  - cbn [map]. f_equal.
    destruct (Z.eqb_spec x (pad_index self)) as [->|Hpad]; cbn [andb].
    + done.
    + rewrite <- Hx. by apply Z.eqb_neq.
  - f_equal. symmetry. apply andb_false_iff.
    destruct (Z.eqb_spec x (pad_index self)) as [->|Hpad]; [right|by left].
    apply Z.eqb_neq. intros Hlor. by rewrite Hlor in Hx.
Qed.

(** X12. For a single image, the second loop of [predict] overwrites
    position [i] only when position [i - 1] holds the pad index and
    [end_index | pad_index == pad_index]; an end token before it never
    does. When [end_index | pad_index] differs from [pad_index] (as for
    81 and 79) the loop returns every one-row buffer unchanged. *)
Theorem post_pass_single_image (self : config) (steps : list nat) (row : list Z) :
  (forall i,
     mask_index self [row] i = Ok [true] ->
     nth (i - 1) row 0%Z = pad_index self /\
     Z.lor (end_index self) (pad_index self) = pad_index self) /\
  (Z.lor (end_index self) (pad_index self) ≠ pad_index self ->
   post_pass self steps [row] = Ok [row]).
Proof.
  split.
  - intros i. rewrite mask_index_single. intros [= Hmask].
    apply andb_true_iff in Hmask as [Hx Hlor].
    by apply Z.eqb_eq in Hx, Hlor.
  - intros Hlor. induction steps as [|i steps IH]; [done|].
    cbn [post_pass]. rewrite mask_index_single.
    apply Z.eqb_neq in Hlor. rewrite Hlor, andb_false_r.
    cbn [mbind result_bind rbind Torch.masked_set zip_with]. exact IH.
Qed.

Lemma mask_index_length_raises (self : config) (output : Torch.matrix) (i : nat) :
  length output ≠ 1%nat -> mask_index self output i = Raise RuntimeError.
Proof.
  intros Hlen. unfold mask_index. rewrite tensor_bool_raises; [done|].
  unfold Torch.column. by rewrite length_zip_with, !length_map, Nat.min_id.
Qed.

(** X13. The second loop of [predict] takes [bool()] of a tensor with one
    element per image: for a batch of several images, or of none, its
    first step raises. *)
Theorem post_pass_batch_raises (self : config) (i : nat) (steps : list nat)
    (output : Torch.matrix) :
  length output ≠ 1%nat ->
  post_pass self (i :: steps) output = Raise RuntimeError.
Proof.
  intros Hlen. cbn [post_pass]. by rewrite mask_index_length_raises.
Qed.

Lemma post_pass_batch_raises_witness :
  post_pass demo (1 :: [2])%nat [[80; 81; 79]; [80; 5; 81]]%Z = Raise RuntimeError.
Proof.
  apply (post_pass_batch_raises demo 1 [2]%nat [[80; 81; 79]; [80; 5; 81]]%Z).
  simpl. lia.
Defined.

(** X14. What [predict] does from the allocation of the buffer on (that is,
    once [self.encode(x)] has returned), by [max_output_len]: for 0 the
    assignment of the start index to column 0 raises IndexError; for 1
    neither loop runs and every image gets the sequence [[start]]; for 2
    and more the call raises, whatever the images and the networks are. *)
Theorem predict_outcome (Image : Type) (shape0 : Image -> nat)
    (next_tokens : Image -> Torch.matrix -> result (list Z))
    (self : config) (x : Image) :
  match max_output_len self with
  | 0%nat => predict Image shape0 next_tokens self x = Raise IndexError
  | 1%nat => predict Image shape0 next_tokens self x =
               Ok (repeat [start_index self] (shape0 x))
  | _ => exists e, predict Image shape0 next_tokens self x = Raise e
  end.
Proof.
  destruct (max_output_len self) as [|[|n]] eqn:Hlen.
  - unfold predict, init_output, Torch.set_column_scalar. by rewrite Hlen.
  - unfold predict. rewrite init_output_eq by lia. rewrite Hlen. done.
  - apply predict_raises. lia.
Qed.

End ReaderMore.

(* ===================================================================== *)
(** ** Results on the experiment scripts                                  *)
(* ===================================================================== *)

Module ExperimentFacts.
Import Metrics Experiment.

(** *** _import_class *)

Lemma last_dot_None (s : pystr) : last_dot s = None <-> "."%char ∉ s.
Proof.
  induction s as [|c s IH]; cbn [last_dot].
  - split; [intros _; by apply not_elem_of_nil|done].
  - destruct (last_dot s) as [[before after]|].
    + split; [done|]. intros Hnot. exfalso.
      assert (Hs : "."%char ∉ s) by (intros Hin; apply Hnot; by right).
      by apply IH in Hs.
    + destruct (decide (c = "."%char)) as [->|Hc].
      * split; [done|]. intros Hnot. exfalso. apply Hnot. by left.
      * split; [|done]. intros _ Hin. apply elem_of_cons in Hin as [Heq|Hin]; [done|].
        by apply (proj1 IH).
Qed.

Lemma last_dot_app (before after : pystr) :
  "."%char ∉ after -> last_dot (before ++ "."%char :: after) = Some (before, after).
Proof.
  intros Hafter. apply last_dot_None in Hafter.
  induction before as [|c before IH]; cbn [app last_dot].
  - rewrite Hafter. by destruct (decide ("."%char = "."%char)).
  - by rewrite IH.
Qed.

(** X15. [_import_class] splits the name at its last dot: a name without
    dot raises ValueError and nothing is imported; for
    [module.class], with no dot in [class], the module [module] is
    imported and its attribute [class] is returned, so that dots in what
    follows a prefix such as ["text_recognizer.networks."] select a
    submodule. *)
Theorem import_class_last_dot (Module_ Class_ : Type)
    (import_module : pystr -> answer Module_)
    (getattr : Module_ -> pystr -> answer Class_) :
  (forall name,
     "."%char ∉ name ->
     _import_class Module_ Class_ import_module getattr name =
       Throw (Builtin ValueError)) /\
  (forall module_name class_name,
     "."%char ∉ class_name ->
     _import_class Module_ Class_ import_module getattr
       (module_name ++ "."%char :: class_name) =
       (module ← import_module module_name; getattr module class_name)).
Proof.
  split.
  - intros name Hname. unfold _import_class, rsplit_dot.
    apply last_dot_None in Hname. by rewrite Hname.
  - intros module_name class_name Hclass. unfold _import_class, rsplit_dot.
    by rewrite last_dot_app.
Qed.

Example import_class_submodule :
  rsplit_dot (str "text_recognizer.networks.transformer.Decoder") =
    [str "text_recognizer.networks.transformer"; str "Decoder"].
Proof. reflexivity. Qed.

(** *** _save_best_weights and run *)

Lemma first_checkpoint_none (pl_callbacks : list callback) :
  Forall is_other pl_callbacks -> first_checkpoint pl_callbacks = Throw StopIteration.
Proof.
  induction 1 as [|cb cbs Hcb _ IH]; [done|]. by destruct cb.
Qed.

Lemma first_checkpoint_skip (others rest : list callback) (path : pystr) :
  Forall is_other others ->
  first_checkpoint (others ++ ModelCheckpoint path :: rest) = Return path.
Proof.
  induction 1 as [|cb cbs Hcb _ IH]; [done|]. by destruct cb.
Qed.

(** X16. [_save_best_weights] looks at the first [ModelCheckpoint] among
    the callbacks only: without one it raises StopIteration before any
    call is made; the callbacks before and after the first one do not
    matter; and when its best model path is empty nothing is logged or
    uploaded. *)
Theorem save_best_weights_first_checkpoint (fails : list event -> event -> option exn)
    (use_wandb : bool) (trace : list event) :
  (forall pl_callbacks,
     Forall is_other pl_callbacks ->
     _save_best_weights fails pl_callbacks use_wandb trace =
       (Throw StopIteration, trace)) /\
  (forall others rest path,
     Forall is_other others ->
     _save_best_weights fails (others ++ ModelCheckpoint path :: rest) use_wandb trace =
       _save_best_weights fails [ModelCheckpoint path] use_wandb trace) /\
  (forall others rest,
     Forall is_other others ->
     _save_best_weights fails (others ++ ModelCheckpoint [] :: rest) use_wandb trace =
       (Return tt, trace)).
Proof.
  split; [|split].
  - intros pl_callbacks Hnone. unfold _save_best_weights.
    by rewrite first_checkpoint_none.
  - intros others rest path Hothers. unfold _save_best_weights.
    by rewrite first_checkpoint_skip.
  - intros others rest Hothers. unfold _save_best_weights.
    by rewrite first_checkpoint_skip.
Qed.

Lemma call_ok (fails : list event -> event -> option exn) (e : event)
    (trace : list event) :
  (forall trace' e', fails trace' e' = None) ->
  call fails e trace = (Return tt, trace ++ [e]).
Proof. intros Hok. unfold call. by rewrite Hok. Qed.

(** X17. In a fast development run, [run] logs one message, calls
    [trainer.fit] once and returns: no tuning, no test, no look at the
    callbacks and no upload, whatever the rest of the configuration says. *)
Theorem run_trainer_fast_dev_run (fails : list event -> event -> option exn)
    (config : trainer_config) (pl_callbacks : list callback) (trace : list event) :
  fast_dev_run config = true ->
  (forall trace' e', fails trace' e' = None) ->
  run_trainer fails config pl_callbacks trace =
    (Return tt, trace ++ [Info (str "Fast development run..."); TrainerFit]).
Proof.
  intros Hfast Hok. unfold run_trainer. rewrite Hfast.
  unfold mbind, script_bind. rewrite !call_ok by done.
  by rewrite <- app_assoc.
Qed.

Lemma run_trainer_fast_dev_run_witness :
  run_trainer (fun _ _ => None)
    {| fast_dev_run := true; tune := true; train := false; test := true;
       wandb := true |} [] [] =
    (Return tt, [] ++ [Info (str "Fast development run..."); TrainerFit]).
Proof.
  apply (run_trainer_fast_dev_run (fun _ _ => None)
           {| fast_dev_run := true; tune := true; train := false; test := true;
              wandb := true |} [] []).
  - reflexivity.
  - reflexivity.
Defined.

Lemma phases_ok (fails : list event -> event -> option exn)
    (config : trainer_config) (k : script unit) (trace : list event) :
  (forall trace' e', fails trace' e' = None) ->
  (_ ← when (tune config)
         (_ ← call fails (Info (str "Tuning learning rate and batch size..."));
          call fails TrainerTune);
   _ ← when (train config)
         (_ ← call fails (Info (str "Training network..."));
          call fails TrainerFit);
   _ ← when (test config)
         (_ ← call fails (Info (str "Testing network..."));
          call fails TrainerTest);
   k) trace = k (trace ++ phase_events config).
Proof.
  intros Hok. unfold phase_events, when, mbind, script_bind, mret, script_ret.
  destruct (tune config), (train config), (test config);
    rewrite ?call_ok by done; rewrite <- ?app_assoc; cbn [app];
    by rewrite ?app_nil_r.
Qed.

(** X18. Outside a fast development run, [run] ends with
    [_save_best_weights]: when the configured callbacks hold no
    [ModelCheckpoint], the phases that were asked for (tune, fit, test)
    are run in this order and then the call raises StopIteration. *)
Theorem run_trainer_without_checkpoint (fails : list event -> event -> option exn)
    (config : trainer_config) (pl_callbacks : list callback) (trace : list event) :
  fast_dev_run config = false ->
  (forall trace' e', fails trace' e' = None) ->
  Forall is_other pl_callbacks ->
  run_trainer fails config pl_callbacks trace =
    (Throw StopIteration, trace ++ phase_events config).
Proof.
  intros Hfast Hok Hnone. unfold run_trainer. rewrite Hfast.
  rewrite phases_ok by done. unfold _save_best_weights.
  by rewrite first_checkpoint_none.
Qed.

Lemma run_trainer_without_checkpoint_witness :
  run_trainer (fun _ _ => None)
    {| fast_dev_run := false; tune := false; train := true; test := true;
       wandb := false |} [OtherCallback (str "EarlyStopping")] [] =
    (Throw StopIteration,
     [] ++ phase_events {| fast_dev_run := false; tune := false; train := true;
                           test := true; wandb := false |}).
Proof.
  apply (run_trainer_without_checkpoint (fun _ _ => None)
           {| fast_dev_run := false; tune := false; train := true; test := true;
              wandb := false |} [OtherCallback (str "EarlyStopping")] []).
  - reflexivity.
  - reflexivity.
  - repeat constructor.
Defined.

Lemma emits_ret {A : Type} (P : event -> Prop) (a : A) : emits P (mret a).
Proof.
  intros trace a' trace' [= <- <-]. exists []. by rewrite app_nil_r.
Qed.

Lemma emits_throw {A : Type} (P : event -> Prop) (e : exn) : emits P (@throw A e).
Proof.
  intros trace a' trace' [= <- <-]. exists []. by rewrite app_nil_r.
Qed.

Lemma emits_call (fails : list event -> event -> option exn) (P : event -> Prop)
    (e : event) :
  P e -> emits P (call fails e).
Proof.
  intros He trace a trace'. unfold call.
  destruct (fails trace e); intros [= <- <-]; exists [e]; by repeat constructor.
Qed.

Lemma emits_bind {A B : Type} (P : event -> Prop) (m : script A) (k : A -> script B) :
  emits P m -> (forall a, emits P (k a)) -> emits P (m ≫= k).
Proof.
  intros Hm Hk trace b trace'. unfold mbind, script_bind.
  destruct (m trace) as [[a|e] trace1] eqn:Hrun.
  - destruct (Hm _ _ _ Hrun) as (events1 & -> & Hall1). intros Hrun2.
    destruct (Hk a _ _ _ Hrun2) as (events2 & -> & Hall2).
    exists (events1 ++ events2). rewrite app_assoc. split; [done|].
    by apply Forall_app.
  - destruct (Hm _ _ _ Hrun) as (events1 & -> & Hall1). intros [= <- <-].
    by exists events1.
Qed.

Lemma emits_when (P : event -> Prop) (b : bool) (m : script unit) :
  emits P m -> emits P (when b m).
Proof. destruct b; [done|]. intros _. apply emits_ret. Qed.

(** X19. [wandb.save] is called by [run] only outside a fast development
    run, only when [config.trainer.wandb] is set, and only with the
    non-empty best model path of the first [ModelCheckpoint] callback;
    this holds whichever of the library calls raise. *)
Theorem run_trainer_upload (fails : list event -> event -> option exn)
    (config : trainer_config) (pl_callbacks : list callback)
    (trace trace' : list event) (a : answer unit) (path : pystr) :
  run_trainer fails config pl_callbacks trace = (a, trace') ->
  WandbSave path ∈ trace' ->
  WandbSave path ∈ trace \/
  (fast_dev_run config = false /\ wandb config = true /\ path ≠ [] /\
   first_checkpoint pl_callbacks = Return path).
Proof.
  intros Hrun Hin.
  set (P := fun e : event =>
              forall path', e = WandbSave path' ->
                fast_dev_run config = false /\ wandb config = true /\ path' ≠ [] /\
                first_checkpoint pl_callbacks = Return path').
  assert (Hemits : emits P (run_trainer fails config pl_callbacks)).
  { assert (Hinfo : forall message, P (Info message)) by (by intros message path').
    unfold run_trainer. destruct (fast_dev_run config) eqn:Hfast.
    - apply emits_bind; [by apply emits_call|]. intros _.
      apply emits_call. by intros path'.
    - repeat (apply emits_bind;
              [apply emits_when; apply emits_bind; [by apply emits_call|];
               intros _; apply emits_call; by intros path'|]; intros _).
      unfold _save_best_weights.
      destruct (first_checkpoint pl_callbacks) as [[|c best]|e] eqn:Hfirst.
      + apply emits_ret.
      + apply emits_bind; [by apply emits_call|]. intros _.
        destruct (wandb config) eqn:Hwandb; [|apply emits_ret].
        apply emits_bind; [by apply emits_call|]. intros _.
        apply emits_call. by intros path' [= <-].
      + apply emits_throw. }
  destruct (Hemits trace a trace' Hrun) as (events & -> & Hevents).
  apply elem_of_app in Hin as [Hin|Hin]; [by left|right].
  by apply (proj1 (Forall_forall _ _) Hevents _ Hin path).
Qed.

Lemma run_trainer_upload_witness :
  WandbSave (str "best.ckpt") ∈ [] \/
  (fast_dev_run {| fast_dev_run := false; tune := false; train := false;
                   test := false; wandb := true |} = false /\
   wandb {| fast_dev_run := false; tune := false; train := false;
            test := false; wandb := true |} = true /\
   str "best.ckpt" ≠ [] /\
   first_checkpoint [OtherCallback (str "EarlyStopping");
                     ModelCheckpoint (str "best.ckpt")] = Return (str "best.ckpt")).
Proof.
  apply (run_trainer_upload (fun _ _ => None)
           {| fast_dev_run := false; tune := false; train := false;
              test := false; wandb := true |}
           [OtherCallback (str "EarlyStopping"); ModelCheckpoint (str "best.ckpt")]
           []
           [Info (str "Best model saved at: best.ckpt");
            Info (str "Uploading model to W&B...");
            WandbSave (str "best.ckpt")]
           (Return tt) (str "best.ckpt")).
  - reflexivity.
  - set_solver.
Defined.

(** *** run_experiments *)

Lemma entries_get_set_eq (entries : list (key * loc)) (k : key) (l : loc) :
  entries_get (entries_set entries k l) k = Return l.
Proof.
  induction entries as [|[k' l'] entries IH]; simpl.
  - by rewrite decide_True.
  - destruct (decide (k' = k)) as [->|Hne]; simpl.
    + by rewrite decide_True.
    + by rewrite decide_False.
Qed.

Lemma entries_get_set_ne (entries : list (key * loc)) (k k' : key) (l : loc) :
  k' ≠ k ->
  entries_get (entries_set entries k l) k' = entries_get entries k'.
Proof.
  intros Hne. induction entries as [|[k0 l0] entries IH]; simpl.
  - by rewrite decide_False.
  - destruct (decide (k0 = k)) as [->|Hk]; simpl.
    + by rewrite !decide_False.
    + by rewrite IH.
Qed.

Lemma entries_get_missing (entries : list (key * loc)) (k : key) :
  k ∉ entries.*1 -> entries_get entries k = Throw (Builtin KeyError).
Proof.
  induction entries as [|[k' l'] entries IH]; simpl; [done|].
  intros Hnot. apply not_elem_of_cons in Hnot as [Hne Hnot].
  rewrite decide_False; [by apply IH|done].
Qed.

Lemma entries_set_twice (entries : list (key * loc)) (k : key) (l : loc) :
  entries_set (entries_set entries k l) k l = entries_set entries k l.
Proof.
  induction entries as [|[k' l'] entries IH]; simpl.
  - by rewrite decide_True.
  - destruct (decide (k' = k)) as [->|Hne]; simpl.
    + by rewrite decide_True.
    + by rewrite decide_False, IH.
Qed.

(** The heap after line 18, object by object. *)
Lemma with_group_lookup (group : loc) (h : heap) (experiment l : loc) :
  with_group group h experiment !! l =
    if decide (l = experiment) then
      match h !! experiment with
      | Some (NDict entries) =>
          Some (NDict (entries_set entries (KStr (str "experiment_group")) group))
      | other => other
      end
    else h !! l.
Proof.
  unfold with_group. destruct (decide (l = experiment)) as [->|Hne].
  - destruct (h !! experiment) as [[]|] eqn:Hl; rewrite ?lookup_insert_eq; done.
  - destruct (h !! experiment) as [[]|] eqn:Hl; rewrite ?lookup_insert_ne; done.
Qed.

Lemma with_groups_other (group : loc) (experiments : list loc) (h : heap)
    (l : loc) (n : node) :
  h !! l = Some n -> (forall entries, n ≠ NDict entries) ->
  with_groups group h experiments !! l = Some n.
Proof.
  intros Hl Hn. revert h Hl. unfold with_groups.
  induction experiments as [|l0 experiments IH]; intros h Hl; [done|].
  cbn [foldl]. apply IH. rewrite with_group_lookup.
  destruct (decide (l = l0)) as [<-|]; [|done].
  rewrite Hl. destruct n; try done. by destruct (Hn entries).
Qed.

Lemma with_groups_set (group : loc) (experiments : list loc) (h : heap)
    (l : loc) (entries : list (key * loc)) :
  h !! l = Some (NDict (entries_set entries (KStr (str "experiment_group")) group)) ->
  with_groups group h experiments !! l =
    Some (NDict (entries_set entries (KStr (str "experiment_group")) group)).
Proof.
  revert h. unfold with_groups.
  induction experiments as [|l0 experiments IH]; intros h Hl; [done|].
  cbn [foldl]. apply IH. rewrite with_group_lookup.
  destruct (decide (l = l0)) as [<-|]; [|done].
  by rewrite Hl, entries_set_twice.
Qed.

Lemma with_groups_mapping (group : loc) (experiments : list loc) (h : heap)
    (l : loc) (entries : list (key * loc)) :
  h !! l = Some (NDict entries) ->
  with_groups group h experiments !! l =
    Some (NDict (if decide (l ∈ experiments)
                 then entries_set entries (KStr (str "experiment_group")) group
                 else entries)).
Proof.
  revert h. unfold with_groups.
  induction experiments as [|l0 experiments IH]; intros h Hl; [done|].
  cbn [foldl]. destruct (decide (l = l0)) as [<-|Hne].
  - rewrite decide_True by left.
    apply with_groups_set. rewrite with_group_lookup, decide_True by done.
    by rewrite Hl.
  - rewrite (IH (with_group group h l0)).
    + destruct (decide (l ∈ experiments)) as [Hin|Hnot].
      * by rewrite decide_True by (by right).
      * rewrite decide_False; [done|].
        intros Hin. apply elem_of_cons in Hin as [?|?]; done.
    + by rewrite with_group_lookup, decide_False.
Qed.

Lemma with_groups_snoc (group : loc) (items : list loc) (h : heap) (k : nat) (l : loc) :
  items !! k = Some l ->
  with_groups group h (take (S k) items) =
    with_group group (with_groups group h (take k items)) l.
Proof.
  intros Hk. unfold with_groups.
  by rewrite (take_S_r _ _ _ Hk), foldl_app.
Qed.

Section Loop.

Variable dumps : heap -> value -> answer pystr.
Variables (root experiments group : loc) (entries : list (key * loc)).
Variables (items : list loc) (h0 : heap).

Hypothesis root_mapping : h0 !! root = Some (NDict entries).
Hypothesis root_experiments :
  entries_get entries (KStr (str "experiments")) = Return experiments.
Hypothesis root_group :
  entries_get entries (KStr (str "experiment_group")) = Return group.
Hypothesis experiments_list : h0 !! experiments = Some (NSeq items).

(** Whatever experiments have got the group, the top object still leads
    to the same list and the same group. *)
Lemma document_kept (ls : list loc) :
  getitem_str (with_groups group h0 ls) (Ref root) (str "experiments")
    = Return experiments /\
  getitem_str (with_groups group h0 ls) (Ref root) (str "experiment_group")
    = Return group /\
  with_groups group h0 ls !! experiments = Some (NSeq items).
Proof.
  unfold getitem_str, node_of.
  rewrite (with_groups_mapping group ls h0 root entries root_mapping).
  rewrite (with_groups_other group ls h0 experiments (NSeq items)) by done.
  cbn [default from_option id]. destruct (decide (root ∈ ls)); [|done].
  rewrite entries_get_set_ne by done. by rewrite entries_get_set_eq.
Qed.

(** One turn of the loop for an experiment that is a mapping and that
    [json.dumps] accepts. *)
Lemma experiment_command_mapping (k : nat) (l : loc) (text : pystr) :
  items !! k = Some l ->
  (exists e, h0 !! l = Some (NDict e)) ->
  dumps (with_groups group h0 (take (S k) items)) (Ref l) = Return text ->
  experiment_command dumps root k (with_groups group h0 (take k items)) =
    Return (str "python training/run_experiment.py --gpu=-1 --save '"
            ++ text ++ str "'",
            with_groups group h0 (take (S k) items)).
Proof.
  intros Hk [e He] Hdumps.
  destruct (document_kept (take k items)) as (Hexperiments & Hgroup & Hlist).
  unfold experiment_command. rewrite Hexperiments, Hgroup.
  cbn [mbind answer_bind]. unfold getitem_int, node_of. rewrite Hlist.
  cbn [default from_option id]. rewrite Hk. cbn [mbind answer_bind].
  unfold setitem_str.
  rewrite (with_groups_mapping group (take k items) h0 l e He).
  cbn [mbind answer_bind].
  assert (Hnext : with_groups group h0 (take (S k) items) =
                  <[l := NDict (entries_set
                                  (if decide (l ∈ take k items)
                                   then entries_set e (KStr (str "experiment_group")) group
                                   else e)
                                  (KStr (str "experiment_group")) group)]>
                    (with_groups group h0 (take k items))).
  { rewrite (with_groups_snoc group items h0 k l Hk). unfold with_group.
    by rewrite (with_groups_mapping group (take k items) h0 l e He). }
  rewrite <- Hnext, Hdumps. done.
Qed.

(** The turns of the loop for a run of such experiments. *)
Lemma print_commands_mappings (texts : nat -> pystr) (n : nat) :
  forall (start : nat) (more : list nat) (printed : list pystr),
    (start + n <= length items)%nat ->
    (forall k l, (start <= k < start + n)%nat -> items !! k = Some l ->
       (exists e, h0 !! l = Some (NDict e)) /\
       dumps (with_groups group h0 (take (S k) items)) (Ref l) = Return (texts k)) ->
    print_commands dumps root (seq start n ++ more)
                   (with_groups group h0 (take start items)) printed =
    print_commands dumps root more
                   (with_groups group h0 (take (start + n) items))
                   (printed ++
                    ((fun k => str "python training/run_experiment.py --gpu=-1 --save '"
                               ++ texts k ++ str "'") <$> seq start n)).
Proof.
  induction n as [|n IH]; intros start more printed Hlen Hitems.
  - cbn [seq app fmap list_fmap]. by rewrite Nat.add_0_r, app_nil_r.
  - destruct (lookup_lt_is_Some_2 items start) as [l Hl]; [lia|].
    destruct (Hitems start l) as [Hmapping Hdumps]; [lia|done|].
    cbn [seq app print_commands].
    rewrite (experiment_command_mapping start l (texts start)) by done.
    rewrite IH.
    + replace (S start + n)%nat with (start + S n)%nat by lia.
      cbn [fmap list_fmap]. by rewrite <- app_assoc.
    + lia.
    + intros k l' Hk. apply Hitems. lia.
Qed.

Lemma print_commands_first (texts : nat -> pystr) (n : nat) (more : list nat) :
  (n <= length items)%nat ->
  (forall k l, (k < n)%nat -> items !! k = Some l ->
     (exists e, h0 !! l = Some (NDict e)) /\
     dumps (with_groups group h0 (take (S k) items)) (Ref l) = Return (texts k)) ->
  print_commands dumps root (seq 0 n ++ more) h0 [] =
  print_commands dumps root more (with_groups group h0 (take n items))
                 ((fun k => str "python training/run_experiment.py --gpu=-1 --save '"
                            ++ texts k ++ str "'") <$> seq 0 n).
Proof.
  intros Hlen Hitems.
  apply (print_commands_mappings texts n 0 more []); [done|].
  intros k l Hk. apply Hitems. lia.
Qed.

End Loop.

(** X20. For a document whose top object is a mapping with a list of
    mappings under ["experiments"] and a group under
    ["experiment_group"], and whose experiments [json.dumps] accepts
    when their turn comes, [run_experiments] prints one command per
    experiment, in the order of the list, and returns. What is
    serialized for an experiment is its mapping as line 18 has left it:
    with the group of the document under ["experiment_group"], also when
    the experiment names a group of its own, and with its own value
    under every other key. An experiment that occurs twice in the list
    (an alias) is changed once and printed twice. *)
Theorem run_experiments_commands (dumps : heap -> value -> answer pystr)
    (h : heap) (root experiments group : loc) (entries : list (key * loc))
    (items : list loc) (texts : nat -> pystr) :
  h !! root = Some (NDict entries) ->
  entries_get entries (KStr (str "experiments")) = Return experiments ->
  entries_get entries (KStr (str "experiment_group")) = Return group ->
  h !! experiments = Some (NSeq items) ->
  (forall k l, items !! k = Some l ->
     (exists e, h !! l = Some (NDict e)) /\
     dumps (with_groups group h (take (S k) items)) (Ref l) = Return (texts k)) ->
  run_experiments dumps h root =
    (Return tt,
     (fun k => str "python training/run_experiment.py --gpu=-1 --save '"
               ++ texts k ++ str "'") <$> seq 0 (length items)) /\
  (forall k l e,
     items !! k = Some l -> h !! l = Some (NDict e) ->
     exists e',
       with_groups group h (take (S k) items) !! l = Some (NDict e') /\
       entries_get e' (KStr (str "experiment_group")) = Return group /\
       forall key, key ≠ KStr (str "experiment_group") ->
         entries_get e' key = entries_get e key).
Proof.
  intros Hroot Hexperiments Hgroup Hlist Hitems. split.
  - unfold run_experiments, getitem_str, py_len, node_of.
    rewrite Hroot. cbn [default from_option id]. rewrite Hexperiments.
    cbn [mbind answer_bind]. rewrite Hlist. cbn [default from_option id].
    pose proof (print_commands_first dumps root experiments group entries
                  items h Hroot Hexperiments Hgroup Hlist texts (length items) [])
      as Hloop.
    rewrite app_nil_r in Hloop.
    rewrite Hloop; [done|lia|]. intros k l _. apply Hitems.
  - intros k l e Hk Hl.
    rewrite (with_groups_mapping group _ h l e Hl).
    rewrite decide_True.
    + eexists. split; [done|]. split; [apply entries_get_set_eq|].
      intros key Hkey. by apply entries_get_set_ne.
    + apply list_elem_of_lookup. exists k.
      rewrite lookup_take_lt by lia. done.
Qed.

(** The example: three experiments, the first with a group of its own,
    the second without a group, the third an alias of the first; every
    command shows the group of the document. *)
Lemma run_experiments_commands_witness :
  run_experiments example_dumps example_document 1%positive =
    (Return tt,
     [str "python training/run_experiment.py --gpu=-1 --save 'lines'";
      str "python training/run_experiment.py --gpu=-1 --save 'lines'";
      str "python training/run_experiment.py --gpu=-1 --save 'lines'"]).
Proof.
  destruct (run_experiments_commands example_dumps example_document
              1%positive 3%positive 2%positive
              [(KStr (str "experiment_group"), 2%positive);
               (KStr (str "experiments"), 3%positive)]
              [4%positive; 6%positive; 4%positive]
              (fun _ => str "lines")) as [Hrun _].
  - reflexivity.
  - reflexivity.
  - reflexivity.
  - reflexivity.
  - intros [|[|[|k]]] l Hk; try done; injection Hk as <-;
      (split; [by eexists|by vm_compute]).
  - exact Hrun.
Defined.

(** X21. A document with a list of experiments and no
    ["experiment_group"] prints nothing: with an empty list the missing
    key is not noticed and the function returns, otherwise it raises
    KeyError at the first experiment, whatever that experiment is. *)
Theorem run_experiments_missing_group (dumps : heap -> value -> answer pystr)
    (h : heap) (root experiments : loc) (entries : list (key * loc))
    (items : list loc) :
  h !! root = Some (NDict entries) ->
  entries_get entries (KStr (str "experiments")) = Return experiments ->
  h !! experiments = Some (NSeq items) ->
  KStr (str "experiment_group") ∉ entries.*1 ->
  run_experiments dumps h root =
  (match items with [] => Return tt | _ :: _ => Throw (Builtin KeyError) end, []).
Proof.
  intros Hroot Hexperiments Hlist Hmissing.
  unfold run_experiments, getitem_str, py_len, node_of.
  rewrite Hroot. cbn [default from_option id]. rewrite Hexperiments.
  cbn [mbind answer_bind]. rewrite Hlist. cbn [default from_option id].
  destruct items as [|item items]; [done|].
  cbn [length seq print_commands]. unfold experiment_command, getitem_str, node_of.
  rewrite Hroot. cbn [default from_option id]. rewrite Hexperiments.
  cbn [mbind answer_bind]. unfold getitem_int, node_of. rewrite Hlist.
  cbn [default from_option id lookup list_lookup mbind answer_bind].
  by rewrite (entries_get_missing _ _ Hmissing).
Qed.

Lemma run_experiments_missing_group_witness :
  run_experiments example_dumps
    {[ 1%positive := NDict [(KStr (str "experiments"), 2%positive)];
       2%positive := NSeq [3%positive];
       3%positive := NDict [] ]} 1%positive =
  (Throw (Builtin KeyError), []).
Proof.
  apply (run_experiments_missing_group example_dumps
           {[ 1%positive := NDict [(KStr (str "experiments"), 2%positive)];
              2%positive := NSeq [3%positive];
              3%positive := NDict [] ]}
           1%positive 2%positive [(KStr (str "experiments"), 2%positive)]
           [3%positive]).
  - reflexivity.
  - reflexivity.
  - reflexivity.
  - cbn. intros [Hin|Hin]%elem_of_cons; [discriminate Hin|].
    by apply elem_of_nil in Hin.
Defined.

(** X22. In a document with a group under ["experiment_group"], when the
    experiments before some experiment are mappings that [json.dumps]
    accepts and that experiment is not a mapping (null, a number, a
    string, a list, ...), [run_experiments] raises TypeError at it, after
    the commands of the experiments before it were printed; no later
    experiment is looked at. *)
Theorem run_experiments_not_a_mapping (dumps : heap -> value -> answer pystr)
    (h : heap) (root experiments group : loc) (entries : list (key * loc))
    (mappings after : list loc) (item : loc) (n : node) (texts : nat -> pystr) :
  h !! root = Some (NDict entries) ->
  entries_get entries (KStr (str "experiments")) = Return experiments ->
  entries_get entries (KStr (str "experiment_group")) = Return group ->
  h !! experiments = Some (NSeq (mappings ++ item :: after)) ->
  (forall k l, mappings !! k = Some l ->
     (exists e, h !! l = Some (NDict e)) /\
     dumps (with_groups group h (take (S k) mappings)) (Ref l) = Return (texts k)) ->
  h !! item = Some n ->
  (forall e, n ≠ NDict e) ->
  run_experiments dumps h root =
    (Throw (Builtin TypeError),
     (fun k => str "python training/run_experiment.py --gpu=-1 --save '"
               ++ texts k ++ str "'") <$> seq 0 (length mappings)).
Proof.
  intros Hroot Hexperiments Hgroup Hlist Hmappings Hitem Hn.
  set (items := mappings ++ item :: after) in *.
  unfold run_experiments, getitem_str, py_len, node_of.
  rewrite Hroot. cbn [default from_option id]. rewrite Hexperiments.
  cbn [mbind answer_bind]. rewrite Hlist. cbn [default from_option id].
  assert (Hlen : length items = (length mappings + S (length after))%nat)
    by (subst items; by rewrite length_app).
  rewrite Hlen, seq_app.
  rewrite (print_commands_first dumps root experiments group entries
             items h Hroot Hexperiments Hgroup Hlist texts).
  - cbn [Nat.add seq print_commands app].
    destruct (document_kept root experiments group entries items h
                Hroot Hexperiments Hgroup Hlist (take (length mappings) items))
      as (Hexperiments' & Hgroup' & Hlist').
    unfold experiment_command. rewrite Hexperiments', Hgroup'.
    cbn [mbind answer_bind]. unfold getitem_int, node_of. rewrite Hlist'.
    cbn [default from_option id].
    assert (Hlook : items !! length mappings = Some item)
      by (subst items; by rewrite list_lookup_middle).
    rewrite Hlook. cbn [mbind answer_bind]. unfold setitem_str.
    rewrite (with_groups_other group _ h item n Hitem Hn).
    destruct n; try done. by destruct (Hn entries0).
  - lia.
  - intros k l Hk Hl.
    assert (Hl' : mappings !! k = Some l).
    { subst items. by rewrite lookup_app_l in Hl by lia. }
    destruct (Hmappings k l Hl') as [Hmapping Hdumps]. split; [done|].
    assert (Htake : take (S k) items = take (S k) mappings).
    { subst items. rewrite take_app_le; [done|lia]. }
    by rewrite Htake.
Qed.

(** The example: the second experiment is a string. *)
Lemma run_experiments_not_a_mapping_witness :
  run_experiments example_dumps
    {[ 1%positive := NDict [(KStr (str "experiment_group"), 2%positive);
                            (KStr (str "experiments"), 3%positive)];
       2%positive := NStr (str "lines");
       3%positive := NSeq [4%positive; 5%positive; 4%positive];
       4%positive := NDict [];
       5%positive := NStr (str "cnn") ]} 1%positive =
  (Throw (Builtin TypeError),
   [str "python training/run_experiment.py --gpu=-1 --save 'lines'"]).
Proof.
  apply (run_experiments_not_a_mapping example_dumps
           {[ 1%positive := NDict [(KStr (str "experiment_group"), 2%positive);
                                   (KStr (str "experiments"), 3%positive)];
              2%positive := NStr (str "lines");
              3%positive := NSeq [4%positive; 5%positive; 4%positive];
              4%positive := NDict [];
              5%positive := NStr (str "cnn") ]}
           1%positive 3%positive 2%positive
           [(KStr (str "experiment_group"), 2%positive);
            (KStr (str "experiments"), 3%positive)]
           [4%positive] [4%positive] 5%positive (NStr (str "cnn"))
           (fun _ => str "lines")).
  - reflexivity.
  - reflexivity.
  - reflexivity.
  - reflexivity.
  - intros [|k] l Hk; [|done]. injection Hk as <-.
    split; [by eexists|by vm_compute].
  - reflexivity.
  - intros e. discriminate.
Defined.

End ExperimentFacts.
